(** * Schedule coordination agent: detectors and report

    A shallow embedding of [src/agents/coordinationAgent.js]: the trade
    overlap detector, the missing dependency inferrer, the schedule
    conflict detector, the dependency graph built by [analyzeProjectTasks]
    and the coordination report.

    Conventions of the embedding
    - a row of the [tasks] query is the record [task]; a SQL [NULL] is
      [None];
    - a [DATE] column reaches the code as a JavaScript [Date]; it is
      modelled by its time value, a number of milliseconds ([Z]).
      Time values and their differences are integers below 2^53, so the
      subtraction is exact; the quotient by 86400000 of a difference that
      is no multiple of a day stays more than half a unit in the last
      place away from every integer while the dates are less than 2^27
      days apart, so [Math.ceil (x / 86400000)] is the exact ceiling;
    - JavaScript truthiness is written out: a number is truthy when it is
      not [null] and not [0], an object ([Date], array) when it is not
      [null], a string when it is neither [null] nor empty. *)

From stdpp Require Import gmap list strings.
From Stdlib Require Import ZArith Lia Sorted.

Local Open Scope Z_scope.

(** ** Task rows *)

Record task := Task {
  task_id : Z;
  task_name : string;
  description : option string;
  planned_start_date : option Z;
  planned_end_date : option Z;
  actual_start_date : option Z;
  actual_end_date : option Z;
  status : option string;
  depends_on : option (list Z);
  trade_id : option Z;
  trade_name : option string
}.

(** [x && ...] for a nullable number. *)
Definition truthy_number (o : option Z) : bool :=
  match o with
  | Some k => negb (k =? 0)
  | None => false
  end.

(** [x && ...] for a nullable object. *)
Definition truthy_object {A} (o : option A) : bool :=
  match o with
  | Some _ => true
  | None => false
  end.

(** [new Date(x)]: a copy of the date, and the epoch for [null]. *)
Definition new_Date (o : option Z) : Z := default 0 o.

Definition MS_PER_DAY : Z := 1000 * 60 * 60 * 24.

(** [Math.ceil(ms / (1000 * 60 * 60 * 24))] *)
Definition ceil_days (ms : Z) : Z := - ((- ms) / MS_PER_DAY).

(** [task.depends_on && task.depends_on.length > 0] *)
Definition hasDependencies (t : task) : bool :=
  match depends_on t with
  | Some (_ :: _) => true
  | _ => false
  end.

(** The dependency identities a loop over [task.depends_on] visits. *)
Definition dependency_ids (t : task) : list Z := default [] (depends_on t).

(** ** Trade overlap detector *)

Record overlap := Overlap {
  task1 : task;
  task2 : task;
  startOverlap : Z;
  endOverlap : Z
}.

(** The guard of the grouping loop:
    [task.trade_id && task.planned_start_date && task.planned_end_date]. *)
Definition has_trade_and_range (t : task) : bool :=
  truthy_number (trade_id t)
  && truthy_object (planned_start_date t)
  && truthy_object (planned_end_date t).

(** The key under which a task is grouped, [task.trade_id]. *)
Definition trade_key (t : task) : Z := default 0 (trade_id t).

(** [tasksByTrade] is a [Map] from trade identity to an array of tasks; its
    keys are iterated in insertion order, which an association list keeps.
    [group_push k t m] is
    [if (!m.has(k)) m.set(k, []); m.get(k).push(t)]. *)
Fixpoint group_push (k : Z) (t : task) (m : list (Z * list task))
  : list (Z * list task) :=
  match m with
  | [] => [(k, [t])]
  | (k', g) :: m' =>
      if decide (k' = k) then (k', g ++ [t]) :: m'
      else (k', g) :: group_push k t m'
  end.

(** The callback of the grouping loop. *)
Definition group_step (m : list (Z * list task)) (t : task) : list (Z * list task) :=
  if has_trade_and_range t then group_push (trade_key t) t m else m.

Definition groupByTrade (tasks : list task) : list (Z * list task) :=
  fold_left group_step tasks [].

(** [m.get(k)] on the association list. *)
Fixpoint group_get (k : Z) (m : list (Z * list task)) : option (list task) :=
  match m with
  | [] => None
  | (k', g) :: m' => if decide (k' = k) then Some g else group_get k m'
  end.

(** The body of the innermost loop: the test and the pushed finding. *)
Definition compare_ranges (t1 t2 : task) : list overlap :=
  let startDate1 := new_Date (planned_start_date t1) in
  let endDate1 := new_Date (planned_end_date t1) in
  let startDate2 := new_Date (planned_start_date t2) in
  let endDate2 := new_Date (planned_end_date t2) in
  if (startDate1 <=? endDate2) && (endDate1 >=? startDate2) then
    [ {| task1 := t1;
         task2 := t2;
         startOverlap := if startDate1 >? startDate2 then startDate1 else startDate2;
         endOverlap := if endDate1 <? endDate2 then endDate1 else endDate2 |} ]
  else [].

(** [for (const task1 of tradeTasks1) for (const task2 of tradeTasks2)] *)
Definition compare_groups (tradeTasks1 tradeTasks2 : list task) : list overlap :=
  flat_map (fun t1 => flat_map (fun t2 => compare_ranges t1 t2) tradeTasks2)
           tradeTasks1.

(** [for i, for j = i + 1 ..]: the group of every key against the group of
    every later key, each fetched by [tasksByTrade.get]. *)
Fixpoint compare_trades (tasksByTrade : list (Z * list task)) (trades : list Z)
  : list overlap :=
  match trades with
  | [] => []
  | trade_i :: later =>
      flat_map
        (fun trade_j =>
           compare_groups (default [] (group_get trade_i tasksByTrade))
                          (default [] (group_get trade_j tasksByTrade)))
        later
      ++ compare_trades tasksByTrade later
  end.

(** The array [overlaps] the detector builds and then logs. *)
Definition detectTradeOverlaps (tasks : list task) : list overlap :=
  let tasksByTrade := groupByTrade tasks in
  compare_trades tasksByTrade (map fst tasksByTrade).

(** The day count logged for a finding. *)
Definition daysOverlap (o : overlap) : Z :=
  ceil_days (endOverlap o - startOverlap o).

(** Calendar dates of the examples: local midnight of a day of January
    2024, in a zone without a clock change that month. *)
Definition Jan (d : Z) : Z := (19722 + d) * MS_PER_DAY.

Definition example_task (i : Z) (trade : option Z) (s e : option Z)
    (deps : option (list Z)) : task :=
  {| task_id := i; task_name := "t"; description := None;
     planned_start_date := s; planned_end_date := e;
     actual_start_date := None; actual_end_date := None;
     status := Some "planned"; depends_on := deps;
     trade_id := trade; trade_name := None |}.

(** ** Missing dependency inferrer *)

(** The comparator given to [sort]. *)
Definition compare_start (a b : task) : Z :=
  match planned_start_date a with
  | None => 1
  | Some sa =>
      match planned_start_date b with
      | None => -1
      | Some sb => sa - sb
      end
  end.

(** [Array.prototype.sort] is stable.  It is modelled by the stable
    insertion sort: each element is placed before the first element of the
    sorted prefix that the comparator puts strictly after it.  For a
    consistent comparator this is the only stable sorted arrangement; for
    [compare_start], which is inconsistent only between two tasks without
    a planned start, it is also where a binary insertion places the
    element. *)
Fixpoint sort_insert {A} (cmp : A -> A -> Z) (x : A) (l : list A) : list A :=
  match l with
  | [] => [x]
  | y :: l' =>
      if cmp x y <? 0 then x :: y :: l' else y :: sort_insert cmp x l'
  end.

Definition array_sort {A} (cmp : A -> A -> Z) (l : list A) : list A :=
  fold_left (fun acc x => sort_insert cmp x acc) l [].

Record candidate := Candidate {
  candidate_task : task;
  daysBetween : Z
}.

Record issue := Issue {
  issue_task : task;
  potentialDependencies : list candidate
}.

(** [!currentTask.depends_on || !currentTask.depends_on.includes(prevTask.id)] *)
Definition not_declared (currentTask prevTask : task) : bool :=
  match depends_on currentTask with
  | None => true
  | Some ids => negb (bool_decide (task_id prevTask ∈ ids))
  end.

(** The body of the inner loop over [j < i]. *)
Definition check_previous (currentTask : task) (currentTaskDate : Z)
    (prevTask : task) : list candidate :=
  match planned_end_date prevTask with
  | None => []
  | Some prevTaskEndDate =>
      let days := ceil_days (currentTaskDate - prevTaskEndDate) in
      if (days >=? 0) && (days <=? 5) && not_declared currentTask prevTask
      then [ {| candidate_task := prevTask; daysBetween := days |} ]
      else []
  end.

(** The inner loop: what is pushed on [potentialDependencies] for the task
    at index [i]. *)
Definition find_previous (sortedTasks : list task) (i : nat)
    (currentTask : task) (currentTaskDate : Z) : list candidate :=
  flat_map (check_previous currentTask currentTaskDate) (take i sortedTasks).

(** The body of the outer loop at index [i]. *)
Definition check_task (sortedTasks : list task) (i : nat) : list issue :=
  match sortedTasks !! i with
  | None => []
  | Some currentTask =>
      match planned_start_date currentTask with
      | None => []
      | Some currentTaskDate =>
          let found :=
            find_previous sortedTasks i currentTask currentTaskDate in
          match found with
          | [] => []
          | _ :: _ =>
              if hasDependencies currentTask then []
              else [ {| issue_task := currentTask;
                        potentialDependencies := found |} ]
          end
      end
  end.

Definition scan_sorted (sortedTasks : list task) : list issue :=
  flat_map (check_task sortedTasks) (seq 0 (length sortedTasks)).

(** The array [potentialIssues] the detector builds and then logs. *)
Definition detectMissingDependencies (tasks : list task) : list issue :=
  scan_sorted (array_sort compare_start tasks).

(** ** Schedule conflict detector *)

Record conflict := Conflict {
  conflict_task : task;
  dependency : task;
  daysConflict : Z
}.

(** The body of the loop over [task.depends_on]. *)
Definition check_dependency (taskMap : gmap Z task) (t : task)
    (taskStartDate : Z) (dependencyId : Z) : list conflict :=
  match taskMap !! dependencyId with
  | None => []
  | Some dep =>
      match planned_end_date dep with
      | None => []
      | Some dependencyEndDate =>
          if taskStartDate <? dependencyEndDate then
            [ {| conflict_task := t;
                 dependency := dep;
                 daysConflict := ceil_days (dependencyEndDate - taskStartDate) |} ]
          else []
      end
  end.

(** The body of the loop over [tasks]. *)
Definition check_dependencies (taskMap : gmap Z task) (t : task) : list conflict :=
  if hasDependencies t then
    match planned_start_date t with
    | None => []
    | Some taskStartDate =>
        flat_map (check_dependency taskMap t taskStartDate) (dependency_ids t)
    end
  else [].

(** The array [conflicts] the detector builds and then logs. *)
Definition detectScheduleConflicts (tasks : list task) (taskMap : gmap Z task)
  : list conflict :=
  flat_map (check_dependencies taskMap) tasks.

(** ** Task lookup and dependency graph of [analyzeProjectTasks] *)

Definition buildTaskMap (rows : list task) : gmap Z task :=
  fold_left (fun m t => <[task_id t := t]> m) rows ∅.

Definition initGraph (rows : list task) : gmap Z (list Z) :=
  fold_left (fun g t => <[task_id t := []]> g) rows ∅.

(** [if (g.has(dependencyId)) g.get(dependencyId).push(taskId)] *)
Definition add_dependent (taskId : Z) (g : gmap Z (list Z)) (dependencyId : Z)
  : gmap Z (list Z) :=
  match g !! dependencyId with
  | Some dependents => <[dependencyId := dependents ++ [taskId]]> g
  | None => g
  end.

Definition fill_dependencies (g : gmap Z (list Z)) (t : task) : gmap Z (list Z) :=
  if hasDependencies t
  then fold_left (add_dependent (task_id t)) (dependency_ids t) g
  else g.

Definition buildDependencyGraph (rows : list task) : gmap Z (list Z) :=
  fold_left fill_dependencies rows (initGraph rows).

Record analysis := Analysis {
  overlaps : list overlap;
  potentialIssues : list issue;
  conflicts : list conflict
}.

(** What one run of [analyzeProjectTasks] finds on the rows of a project;
    nothing is analysed when there is no row. *)
Definition analyzeProjectTasks (rows : list task) : option analysis :=
  match rows with
  | [] => None
  | _ :: _ =>
      let taskMap := buildTaskMap rows in
      Some {| overlaps := detectTradeOverlaps rows;
              potentialIssues := detectMissingDependencies rows;
              conflicts := detectScheduleConflicts rows taskMap |}
  end.

(** ** Coordination report *)

(** What a statement of the report assembler can throw. *)
Inductive error :=
  | QueryError (message : string)
  | TypeError (message : string).

(** The completion of a block: a value, or a thrown error. *)
Inductive completion (A : Type) :=
  | Normal (a : A)
  | Throw (e : error).
Arguments Normal {A} a.
Arguments Throw {A} e.

#[global] Instance completion_ret : MRet completion := @Normal.
#[global] Instance completion_bind : MBind completion :=
  fun A B f c =>
    match c with
    | Normal a => f a
    | Throw e => Throw e
    end.

(** [try { body } catch (error) { handler }] *)
Definition try_catch {A} (body : completion A) (handler : error -> completion A)
  : completion A :=
  match body with
  | Normal a => Normal a
  | Throw e => handler e
  end.

(** A [forEach] whose callback may throw. *)
Fixpoint forEach_acc {A S} (f : S -> A -> completion S) (l : list A) (s : S)
  : completion S :=
  match l with
  | [] => mret s
  | x :: l' => s' ← f s x; forEach_acc f l' s'
  end.

(** The outside of the assembler: what the two queries answer for a project
    identity, and the clock read by [new Date()]. *)
Record world := World {
  select_project_name : Z -> completion (list string);
  select_project_tasks : Z -> completion (list task);
  clock : Z
}.

Record task_display := TaskDisplay {
  display_id : Z;
  display_name : string;
  display_description : option string;
  plannedStart : string;
  plannedEnd : string;
  actualStart : string;
  actualEnd : string;
  display_status : option string
}.

Record report := Report {
  projectName : string;
  generatedDate : string;
  tasksByTrade : gmap string (list task_display);
  totalTasks : nat;
  completedTasks : nat;
  inProgressTasks : nat;
  plannedTasks : nat;
  delayedTasks : nat
}.

(** [s || fallback] for a nullable string. *)
Definition string_or (o : option string) (fallback : string) : string :=
  match o with
  | Some s => if decide (s = EmptyString) then fallback else s
  | None => fallback
  end.

(** The properties an object literal [{}] inherits; all of them are truthy
    and none has a [push] method. *)
Definition Object_prototype_keys : list string :=
  [ "constructor"; "__defineGetter__"; "__defineSetter__"; "hasOwnProperty";
    "__lookupGetter__"; "__lookupSetter__"; "isPrototypeOf";
    "propertyIsEnumerable"; "toString"; "valueOf"; "__proto__";
    "toLocaleString" ].

(** [rows.filter(t => t.status === s).length] *)
Definition count_status (s : string) (rows : list task) : nat :=
  length (filter (fun t => status t = Some s) rows).

Section Report.

(** [Date.prototype.toLocaleDateString], which depends on the locale of
    the host. *)
Variable toLocaleDateString : Z -> string.

Definition format_date (o : option Z) (absent : string) : string :=
  match o with
  | Some d => toLocaleDateString (new_Date (Some d))
  | None => absent
  end.

Definition display (t : task) : task_display :=
  {| display_id := task_id t;
     display_name := task_name t;
     display_description := description t;
     plannedStart := format_date (planned_start_date t) "Non défini";
     plannedEnd := format_date (planned_end_date t) "Non défini";
     actualStart := format_date (actual_start_date t) "-";
     actualEnd := format_date (actual_end_date t) "-";
     display_status := status t |}.

(** The body of the grouping loop.  [groups[tradeName]] also finds the
    inherited properties, on which [push] is not a function. *)
Definition group_display (groups : gmap string (list task_display)) (t : task)
  : completion (gmap string (list task_display)) :=
  let tradeName := string_or (trade_name t) "Sans corps de métier" in
  match groups !! tradeName with
  | Some displays => mret (<[tradeName := displays ++ [display t]]> groups)
  | None =>
      if bool_decide (tradeName ∈ Object_prototype_keys)
      then Throw (TypeError "tasksByTrade[tradeName].push is not a function")
      else mret (<[tradeName := [display t]]> groups)
  end.

Definition assemble_report (w : world) (projectId : Z)
  : completion (option report) :=
  projectResult ← select_project_name w projectId;
  match projectResult with
  | [] => mret None
  | name :: _ =>
      rows ← select_project_tasks w projectId;
      groups ← forEach_acc group_display rows ∅;
      mret (Some {| projectName := name;
                    generatedDate := toLocaleDateString (clock w);
                    tasksByTrade := groups;
                    totalTasks := length rows;
                    completedTasks := count_status "completed" rows;
                    inProgressTasks := count_status "in_progress" rows;
                    plannedTasks := count_status "planned" rows;
                    delayedTasks := count_status "delayed" rows |})
  end.

(** The whole body is inside [try]; the handler logs and returns [null]. *)
Definition generateCoordinationReport (w : world) (projectId : Z)
  : completion (option report) :=
  try_catch (assemble_report w projectId) (fun _ => mret None).

End Report.

(** ** The detectors over a store of arrays

    The detectors receive [tasks] by reference.  To follow what they write,
    every array of tasks lives in a store: the input array, the copy made
    by [[...tasks]], and the per-trade arrays held by [tasksByTrade].  A
    task itself is never assigned to (no statement of the file writes a
    field of a task), so an array holds its tasks as values.  The arrays of
    findings are created empty by the detector and hold no alias of an
    array of tasks; they are threaded as values. *)

Abbreviation loc := positive (only parsing).
Abbreviation store := (gmap positive (list task)) (only parsing).

(** A computation over the store; [None] is a read through a reference
    that designates no array. *)
Definition heapM (A : Type) : Type := store -> option (A * store).

#[global] Instance heapM_ret : MRet heapM := fun A a σ => Some (a, σ).
#[global] Instance heapM_bind : MBind heapM :=
  fun A B f m σ =>
    match m σ with
    | Some (a, σ') => f a σ'
    | None => None
    end.

(** [[e1, ..., en]]: a new array. *)
Definition array_literal (elements : list task) : heapM loc :=
  fun σ => let a := fresh (dom σ) in Some (a, <[a := elements]> σ).

Definition array_read (a : loc) : heapM (list task) :=
  fun σ => (fun l => (l, σ)) <$> σ !! a.

Definition array_length (a : loc) : heapM nat :=
  fun σ => (fun l => (length l, σ)) <$> σ !! a.

(** [a[i]], [undefined] out of range. *)
Definition array_at (a : loc) (i : nat) : heapM (option task) :=
  fun σ => (fun l => (l !! i, σ)) <$> σ !! a.

(** [a.push(t)] *)
Definition array_push (a : loc) (t : task) : heapM unit :=
  fun σ => (fun l => (tt, <[a := l ++ [t]]> σ)) <$> σ !! a.

(** [a.sort(cmp)] sorts the array [a] itself. *)
Definition array_sort_in_place (cmp : task -> task -> Z) (a : loc) : heapM unit :=
  fun σ => (fun l => (tt, <[a := array_sort cmp l]> σ)) <$> σ !! a.

(** [[...a]]: a new array with the elements of [a]. *)
Definition array_spread (a : loc) : heapM loc :=
  elements ← array_read a; array_literal elements.

(** [a.forEach(f)], with the state the callback updates: the length is
    read once, each element when its index is reached. *)
Fixpoint for_indices {S} (a : loc) (f : S -> task -> heapM S)
    (indices : list nat) (s : S) : heapM S :=
  match indices with
  | [] => mret s
  | i :: rest =>
      x ← array_at a i;
      s' ← match x with
           | Some t => f s t
           | None => mret s
           end;
      for_indices a f rest s'
  end.

Definition array_forEach {S} (a : loc) (f : S -> task -> heapM S) (s : S)
  : heapM S :=
  n ← array_length a; for_indices a f (seq 0 n) s.

(** [tasksByTrade] with the reference of each trade's array. *)
Fixpoint ref_get (k : Z) (m : list (Z * loc)) : option loc :=
  match m with
  | [] => None
  | (k', g) :: m' => if decide (k' = k) then Some g else ref_get k m'
  end.

(** The callback of the grouping loop. *)
Definition group_task (m : list (Z * loc)) (t : task) : heapM (list (Z * loc)) :=
  if has_trade_and_range t then
    let k := trade_key t in
    m' ← match ref_get k m with
         | Some _ => mret m
         | None => g ← array_literal []; mret (m ++ [(k, g)])
         end;
    match ref_get k m' with
    | Some g => array_push g t;; mret m'
    | None => fun _ => None
    end
  else mret m.

Fixpoint read_groups (m : list (Z * loc)) : heapM (list (Z * list task)) :=
  match m with
  | [] => mret []
  | (k, g) :: m' =>
      l ← array_read g; groups ← read_groups m'; mret ((k, l) :: groups)
  end.

Definition detectTradeOverlaps_heap (tasks : loc) : heapM (list overlap) :=
  refs ← array_forEach tasks group_task [];
  groups ← read_groups refs;
  mret (compare_trades groups (map fst groups)).

Definition detectMissingDependencies_heap (tasks : loc) : heapM (list issue) :=
  sortedTasks ← array_spread tasks;
  array_sort_in_place compare_start sortedTasks;;
  sorted ← array_read sortedTasks;
  mret (scan_sorted sorted).

Definition detectScheduleConflicts_heap (tasks : loc) (taskMap : gmap Z task)
  : heapM (list conflict) :=
  array_forEach tasks
    (fun found t => mret (found ++ check_dependencies taskMap t)) [].

(** The groups a table of references designates in a store. *)
Definition groups_in (σ : store) (m : list (Z * loc)) : list (Z * list task) :=
  map (fun kg => (kg.1, default [] (σ !! kg.2))) m.

(** ** The inferrer with a lookback parameter

    The inferrer as the specification words it: the subjects are the tasks
    of the chronologically sorted list with a planned start and no declared
    dependency; the candidates of a subject are the earlier tasks with a
    planned end at most [lookbackDays] days before, not declared as a
    dependency; a subject without candidate yields nothing.  It is compared
    below with [detectMissingDependencies]. *)
Module Spec.

Definition default_lookbackDays : Z := 5.

Definition is_candidate (lookbackDays : Z) (subject : task) (start : Z)
    (predecessor : task) : bool :=
  match planned_end_date predecessor with
  | None => false
  | Some finish =>
      let days := ceil_days (start - finish) in
      (0 <=? days) && (days <=? lookbackDays)
      && negb (bool_decide (task_id predecessor ∈ dependency_ids subject))
  end.

Definition as_candidate (start : Z) (predecessor : task) : candidate :=
  {| candidate_task := predecessor;
     daysBetween := ceil_days (start - new_Date (planned_end_date predecessor)) |}.

Definition finding_at (lookbackDays : Z) (sorted : list task) (i : nat)
  : list issue :=
  match sorted !! i with
  | None => []
  | Some subject =>
      match planned_start_date subject, dependency_ids subject with
      | Some start, [] =>
          let earlier := take i sorted in
          match filter (fun p => is_candidate lookbackDays subject start p) earlier with
          | [] => []
          | p :: ps =>
              [ {| issue_task := subject;
                   potentialDependencies := map (as_candidate start) (p :: ps) |} ]
          end
      | _, _ => []
      end
  end.

Definition detectMissingDependencies (lookbackDays : Z) (tasks : list task)
  : list issue :=
  let sorted := array_sort compare_start tasks in
  flat_map (finding_at lookbackDays sorted) (seq 0 (length sorted)).

(** One analysis run with the parameterised inferrer. *)
Definition analyzeProjectTasks (lookbackDays : Z) (rows : list task)
  : option analysis :=
  match rows with
  | [] => None
  | _ :: _ =>
      Some {| overlaps := detectTradeOverlaps rows;
              potentialIssues := detectMissingDependencies lookbackDays rows;
              conflicts := detectScheduleConflicts rows (buildTaskMap rows) |}
  end.

End Spec.

(** ** Auxiliary definitions for the proofs *)

(** The tasks of a list the grouping loop files under key [k]. *)
Definition members (k : Z) (tasks : list task) : list task :=
  filter (fun t => has_trade_and_range t = true /\ trade_key t = k) tasks.

(** Two tasks of two trades, planned [Jan 1, Jan 4] and [Jan 5, Jan 10]. *)
Definition apart_tasks : list task :=
  [ example_task 1 (Some 1) (Some (Jan 1)) (Some (Jan 4)) None;
    example_task 2 (Some 2) (Some (Jan 5)) (Some (Jan 10)) None ].

(** Two tasks of two trades, planned [Jan 1, Jan 5] and [Jan 5, Jan 10]. *)
Definition boundary_tasks : list task :=
  [ example_task 1 (Some 1) (Some (Jan 1)) (Some (Jan 5)) None;
    example_task 2 (Some 2) (Some (Jan 5)) (Some (Jan 10)) None ].

(** A task planned to end on Jan 15 and a task that depends on it and is
    planned to start on day [d] of January. *)
Definition dependent_tasks (d : Z) : list task :=
  [ example_task 1 (Some 1) (Some (Jan 1)) (Some (Jan 15)) None;
    example_task 2 (Some 2) (Some (Jan d)) (Some (Jan 25)) (Some [1]) ].

(** The tasks with, and without, a planned start, in the order of the list. *)
Definition dated (tasks : list task) : list task :=
  filter (fun t => is_Some (planned_start_date t)) tasks.

Definition undated (tasks : list task) : list task :=
  filter (fun t => planned_start_date t = None) tasks.

(** Ascending planned starts, on tasks that have one. *)
Definition starts_before (a b : task) : Prop :=
  new_Date (planned_start_date a) <= new_Date (planned_start_date b).

(** A task starting on Jan 10 without declared dependency, after a task
    ending on Jan 6 and a task ending on Jan 3. *)
Definition window_tasks : list task :=
  [ example_task 1 (Some 1) (Some (Jan 2)) (Some (Jan 6)) None;
    example_task 2 (Some 2) (Some (Jan 1)) (Some (Jan 3)) None;
    example_task 3 (Some 3) (Some (Jan 10)) (Some (Jan 12)) (Some []) ].

(** The identities of the tasks of a collection. *)
Definition task_ids (rows : list task) : list Z := map task_id rows.

(** A graph whose keys are the identities [ids] and whose adjacency lists
    hold only identities of [ids]. *)
Definition graph_over (ids : list Z) (g : gmap Z (list Z)) : Prop :=
  (forall k, is_Some (g !! k) <-> k ∈ ids) /\
  (forall k dependents x, g !! k = Some dependents -> x ∈ dependents -> x ∈ ids).

(** A task that depends on an identity of no task ([99]) and on task [1]. *)
Definition dangling_tasks : list task :=
  [ example_task 1 (Some 1) (Some (Jan 1)) (Some (Jan 15)) None;
    example_task 2 (Some 2) (Some (Jan 10)) (Some (Jan 25)) (Some [99; 1]) ].

(** The closed set of statuses the report counts. *)
Definition in_closed_set (t : task) : Prop :=
  status t ∈ [Some "planned"; Some "in_progress"; Some "completed"; Some "delayed"].

(** A world with one project, whose tasks are [rows]. *)
Definition one_project (rows : list task) : world :=
  {| select_project_name :=
       fun projectId => if decide (projectId = 1) then Normal ["Chantier"] else Normal [];
     select_project_tasks :=
       fun projectId => if decide (projectId = 1) then Normal rows else Normal [];
     clock := Jan 20 |}.

(** A world whose store rejects every query. *)
Definition store_down : world :=
  {| select_project_name := fun _ => Throw (QueryError "connection refused");
     select_project_tasks := fun _ => Throw (QueryError "connection refused");
     clock := Jan 20 |}.

(** A task of a trade named like an inherited property of objects. *)
Definition constructor_task : task :=
  {| task_id := 1; task_name := "t"; description := None;
     planned_start_date := None; planned_end_date := None;
     actual_start_date := None; actual_end_date := None;
     status := Some "planned"; depends_on := None;
     trade_id := Some 1; trade_name := Some "constructor" |}.

(** Tasks of the four counted statuses, one of an unknown status and one
    without status. *)
Definition status_tasks : list task :=
  map (fun st =>
         {| task_id := 1; task_name := "t"; description := None;
            planned_start_date := None; planned_end_date := None;
            actual_start_date := None; actual_end_date := None;
            status := st; depends_on := None;
            trade_id := None; trade_name := None |})
      [ Some "planned"; Some "in_progress"; Some "completed"; Some "delayed";
        Some "cancelled"; None ].

(** What the grouping loop maintains, from a store [σ0] on: the arrays of
    [σ0] are untouched, the references of [refs] are distinct arrays
    allocated since, and they hold the groups [groups]. *)
Definition grouping_state (σ0 : store) (refs : list (Z * loc))
    (groups : list (Z * list task)) (σ : store) : Prop :=
  σ0 ⊆ σ /\
  groups_in σ refs = groups /\
  NoDup (map snd refs) /\
  (forall g, g ∈ map snd refs -> is_Some (σ !! g) /\ σ0 !! g = None).

(** A store with the two boundary tasks in the array [1]. *)
Definition boundary_store : store := <[1%positive := boundary_tasks]> ∅.

(** A store with an array whose first task has no planned start. *)
Definition unsorted_store : store :=
  <[1%positive := [ example_task 1 None None None None;
                    example_task 2 None (Some (Jan 2)) None None ]]> ∅.

(** What the graph builder pushes on the adjacency list of [d]: the
    identity of a task once for each time the task declares [d], in the
    order of the rows. *)
Definition dependents_of (d : Z) (rows : list task) : list Z :=
  flat_map
    (fun t =>
       flat_map (fun d' => if decide (d' = d) then [task_id t] else [])
                (dependency_ids t))
    rows.

(** A task that declares itself as a dependency. *)
Definition self_dependent_tasks : list task :=
  [ example_task 1 (Some 1) (Some (Jan 1)) (Some (Jan 15)) (Some [1]) ].

(** Rows in the order the query of the agent asks for: ascending planned
    start, the rows without planned start last. *)
Definition query_ordered (rows : list task) : Prop :=
  StronglySorted (fun a b => 0 <= compare_start b a) rows.

(** Three tasks, two of them planned to start the same day, given out of
    order. *)
Definition tied_tasks : list task :=
  [ example_task 1 None (Some (Jan 7)) None None;
    example_task 2 None (Some (Jan 3)) None None;
    example_task 3 None (Some (Jan 7)) None None ].

(** The label under which the report groups a task,
    [task.trade_name || 'Sans corps de métier']. *)
Definition trade_label (t : task) : string :=
  string_or (trade_name t) "Sans corps de métier".

(** The group the report holds under a label, for the rows [rows]: the
    displays of the rows of that label, in order; no group without row. *)
Definition group_of (fmt : Z -> string) (rows : list task) (label : string)
  : option (list task_display) :=
  match filter (fun t => trade_label t = label) rows with
  | [] => None
  | t :: ts => Some (map (display fmt) (t :: ts))
  end.

(** ** The route of the coordination report ([routes/api.js]) *)

Inductive json_body :=
  | SuccessBody (data : report)
  | ErrorBody (message : string) (error : option string).

Record response := Response {
  http_status : Z;
  json : json_body
}.

(** [error.message] *)
Definition error_message (e : error) : string :=
  match e with
  | QueryError message => message
  | TypeError message => message
  end.

(** [GET /projects/:id/coordination-report].  [projectId] is the path
    parameter as the queries receive it; [res.json] alone answers with
    status 200. *)
Definition coordination_report_route (toLocaleDateString : Z -> string)
    (w : world) (projectId : Z) : response :=
  match generateCoordinationReport toLocaleDateString w projectId with
  | Normal None =>
      {| http_status := 404;
         json := ErrorBody "Impossible de générer le rapport de coordination"
                           None |}
  | Normal (Some r) => {| http_status := 200; json := SuccessBody r |}
  | Throw e =>
      {| http_status := 500;
         json := ErrorBody
                   "Erreur lors de la génération du rapport de coordination"
                   (Some (error_message e)) |}
  end.

(** Two tasks of one named trade around a task without trade. *)
Definition labelled_tasks : list task :=
  map (fun it =>
         {| task_id := it.1; task_name := "t"; description := None;
            planned_start_date := None; planned_end_date := None;
            actual_start_date := None; actual_end_date := None;
            status := Some "planned"; depends_on := None;
            trade_id := None; trade_name := it.2 |})
      [ (1, Some "Plomberie"); (2, None); (3, Some "Plomberie") ].

(** ** The analysis runs and their log

    [analyzeProjectSchedule] and [analyzeProjectTasks] return nothing: what
    they do is seen in the log.  A call to the logger is modelled by the
    message it writes, with the values the message interpolates. *)

Inductive log_line :=
  | ScheduleAnalysisStarts
  | ScheduleAnalysisFailed (e : error)
  | TasksAnalysisStarts (name : string) (projectId : Z)
  | NoTaskFound (name : string)
  | OverlapSearchStarts
  | OverlapsDetected (count : nat)
  | OverlapDetected (o : overlap) (days : Z)
  | NoOverlapDetected
  | MissingSearchStarts
  | IssuesDetected (count : nat)
  | MissingDependency (f : issue)
  | NoIssueDetected
  | ConflictSearchStarts
  | ConflictsDetected (count : nat)
  | ConflictDetected (c : conflict)
  | NoConflictDetected
  | TasksAnalysisDone (name : string)
  | TasksAnalysisFailed (projectId : Z) (e : error).

(** A block that writes to the log and completes: by a value, or by a
    thrown error after what it had written. *)
Definition logged (A : Type) : Type := (list log_line * completion A)%type.

#[global] Instance logged_ret : MRet logged := fun A a => ([], Normal a).
#[global] Instance logged_bind : MBind logged :=
  fun A B f m =>
    match m with
    | (written, Normal a) => let (more, c) := f a in (written ++ more, c)
    | (written, Throw e) => (written, Throw e)
    end.

(** [logger.info(...)], [logger.error(...)] *)
Definition say (line : log_line) : logged unit := ([line], Normal tt).

(** [await db.query(...)] *)
Definition await {A} (c : completion A) : logged A := ([], c).

(** [try { body } catch (error) { handler }] around a logging block. *)
Definition try_logged {A} (body : logged A) (handler : error -> logged A)
  : logged A :=
  match body with
  | (written, Normal a) => (written, Normal a)
  | (written, Throw e) => let (more, c) := handler e in (written ++ more, c)
  end.

(** [for (const x of l) { await f(x) }] *)
Fixpoint for_each_logged {A} (f : A -> logged unit) (l : list A) : logged unit :=
  match l with
  | [] => mret tt
  | x :: l' => f x;; for_each_logged f l'
  end.

(** The logging half of [detectTradeOverlaps]. *)
Definition detectTradeOverlaps_logged (tasks : list task) : logged unit :=
  say OverlapSearchStarts;;
  match detectTradeOverlaps tasks with
  | [] => say NoOverlapDetected
  | found =>
      say (OverlapsDetected (length found));;
      for_each_logged (fun o => say (OverlapDetected o (daysOverlap o))) found
  end.

(** The logging half of [detectMissingDependencies]. *)
Definition detectMissingDependencies_logged (tasks : list task) : logged unit :=
  say MissingSearchStarts;;
  match detectMissingDependencies tasks with
  | [] => say NoIssueDetected
  | found =>
      say (IssuesDetected (length found));;
      for_each_logged (fun f => say (MissingDependency f)) found
  end.

(** The logging half of [detectScheduleConflicts]. *)
Definition detectScheduleConflicts_logged (tasks : list task)
    (taskMap : gmap Z task) : logged unit :=
  say ConflictSearchStarts;;
  match detectScheduleConflicts tasks taskMap with
  | [] => say NoConflictDetected
  | found =>
      say (ConflictsDetected (length found));;
      for_each_logged (fun c => say (ConflictDetected c)) found
  end.

(** [analyzeProjectTasks(projectId, projectName)]: the first line is
    written before the [try]. *)
Definition analyzeProjectTasks_logged (w : world) (projectId : Z)
    (name : string) : logged unit :=
  say (TasksAnalysisStarts name projectId);;
  try_logged
    (rows ← await (select_project_tasks w projectId);
     match rows with
     | [] => say (NoTaskFound name)
     | _ :: _ =>
         let taskMap := buildTaskMap rows in
         detectTradeOverlaps_logged rows;;
         detectMissingDependencies_logged rows;;
         detectScheduleConflicts_logged rows taskMap;;
         say (TasksAnalysisDone name)
     end)
    (fun e => say (TasksAnalysisFailed projectId e)).

(** [analyzeProjectSchedule()]; [active] is the answer of the query for
    the active projects, rows of an identity and a name. *)
Definition analyzeProjectSchedule (active : completion (list (Z * string)))
    (w : world) : logged unit :=
  say ScheduleAnalysisStarts;;
  try_logged
    (projects ← await active;
     for_each_logged
       (fun project => analyzeProjectTasks_logged w project.1 project.2)
       projects)
    (fun e => say (ScheduleAnalysisFailed e)).

(** A world with a project [1] of two tasks, a project [2] whose task
    query is rejected and a project [3] without task. *)
Definition three_projects : world :=
  {| select_project_name := fun _ => Normal [];
     select_project_tasks :=
       fun projectId =>
         if decide (projectId = 1) then Normal apart_tasks
         else if decide (projectId = 2) then Throw (QueryError "timeout")
         else Normal [];
     clock := Jan 20 |}.

(** The three detector calls of [analyzeProjectTasks], in sequence on the
    same array of rows. *)
Definition analyzeProjectTasks_heap (tasks : loc) (taskMap : gmap Z task)
  : heapM analysis :=
  found_overlaps ← detectTradeOverlaps_heap tasks;
  found_issues ← detectMissingDependencies_heap tasks;
  found_conflicts ← detectScheduleConflicts_heap tasks taskMap;
  mret {| overlaps := found_overlaps;
          potentialIssues := found_issues;
          conflicts := found_conflicts |}.

(** The trade under key [ki] is met in the rows before the trade under key
    [kj]: a grouped task of the first comes before every grouped task of
    the second. *)
Definition met_before (tasks : list task) (ki kj : Z) : Prop :=
  exists i u,
    tasks !! i = Some u /\ has_trade_and_range u = true /\ trade_key u = ki /\
    forall j v,
      tasks !! j = Some v -> has_trade_and_range v = true ->
      trade_key v = kj -> (i < j)%nat.

(** The candidate and the finding of [window_tasks]. *)
Definition window_candidate : candidate :=
  {| candidate_task :=
       example_task 1 (Some 1) (Some (Jan 2)) (Some (Jan 6)) None;
     daysBetween := 4 |}.

Definition window_finding : issue :=
  {| issue_task :=
       example_task 3 (Some 3) (Some (Jan 10)) (Some (Jan 12)) (Some []);
     potentialDependencies := [window_candidate] |}.

(** The tasks of [window_tasks] given out of order, the latest first. *)
Definition unordered_window_tasks : list task :=
  [ example_task 3 (Some 3) (Some (Jan 10)) (Some (Jan 12)) (Some []);
    example_task 1 (Some 1) (Some (Jan 2)) (Some (Jan 6)) None;
    example_task 2 (Some 2) (Some (Jan 1)) (Some (Jan 3)) None ].

(** * Properties *)

(** ** Arithmetic of day counts *)

Lemma MS_PER_DAY_pos : 0 < MS_PER_DAY.
Proof. reflexivity. Qed.

(** [ceil_days x] is the least integer [n] with [x <= n] days. *)
Lemma ceil_days_spec (x : Z) :
  MS_PER_DAY * (ceil_days x - 1) < x <= MS_PER_DAY * ceil_days x.
Proof.
  unfold ceil_days.
  pose proof MS_PER_DAY_pos as Hpos.
  pose proof (Z.div_mod (- x) MS_PER_DAY ltac:(lia)) as Hdm.
  pose proof (Z.mod_pos_bound (- x) MS_PER_DAY Hpos) as Hb.
  lia.
Qed.

Lemma ceil_days_pos (x : Z) : 0 < x <-> 0 < ceil_days x.
Proof.
  pose proof (ceil_days_spec x) as Hc. pose proof MS_PER_DAY_pos. nia.
Qed.

(** ** Lists *)

Lemma elem_of_flat_map {A B} (f : A -> list B) (l : list A) (y : B) :
  y ∈ flat_map f l <-> exists x, x ∈ l /\ y ∈ f x.
Proof.
  rewrite list_elem_of_In, in_flat_map.
  split; intros (x & Hx & Hy); exists x.
  - by rewrite !list_elem_of_In.
  - by rewrite <- !list_elem_of_In.
Qed.

(** ** Grouping by trade *)

Lemma group_get_push k k' t m :
  group_get k' (group_push k t m) =
  if decide (k = k') then Some (default [] (group_get k m) ++ [t])
  else group_get k' m.
Proof.
  induction m as [|[k0 g] m IH]; simpl.
  - repeat case_decide; simplify_eq; done.
  - destruct (decide (k0 = k)) as [->|Hne]; simpl.
    + repeat case_decide; simplify_eq; done.
    + rewrite IH. repeat case_decide; simplify_eq; done.
Qed.

Lemma group_push_keys k t m :
  map fst (group_push k t m) =
  match group_get k m with Some _ => map fst m | None => map fst m ++ [k] end.
Proof.
  induction m as [|[k0 g] m IH]; simpl; [done|].
  case_decide; simpl; [done|].
  rewrite IH. by destruct (group_get k m).
Qed.

Lemma group_get_is_Some k m : k ∈ map fst m <-> is_Some (group_get k m).
Proof.
  induction m as [|[k0 g] m IH]; simpl.
  - rewrite elem_of_nil. split; [done|]. by intros [? ?].
  - rewrite elem_of_cons, IH. case_decide; simplify_eq.
    + split; eauto.
    + split; [intros [?|?]; [congruence|done] | eauto].
Qed.

Lemma groupByTrade_snoc l t :
  groupByTrade (l ++ [t]) = group_step (groupByTrade l) t.
Proof. unfold groupByTrade, group_step. by rewrite fold_left_app. Qed.

Lemma members_snoc k l t :
  members k (l ++ [t]) =
  members k l ++
  (if decide (has_trade_and_range t = true /\ trade_key t = k) then [t] else []).
Proof.
  unfold members. rewrite filter_app. f_equal.
Qed.

Lemma group_get_groupByTrade k l :
  group_get k (groupByTrade l) =
  match members k l with
  | [] => None
  | g => Some g
  end.
Proof.
  induction l as [|t l IH] using rev_ind; [done|].
  rewrite groupByTrade_snoc, members_snoc. unfold group_step.
  destruct (has_trade_and_range t) eqn:Ht.
  - rewrite group_get_push.
    destruct (decide (trade_key t = k)) as [Hk|Hk].
    + rewrite decide_True by done. rewrite Hk, IH.
      destruct (members k l); simpl; done.
    + rewrite decide_False by tauto. by rewrite app_nil_r.
  - rewrite decide_False by (intros [? _]; done). by rewrite app_nil_r.
Qed.

Lemma groupByTrade_keys_NoDup l : NoDup (map fst (groupByTrade l)).
Proof.
  induction l as [|t l IH] using rev_ind; [constructor|].
  rewrite groupByTrade_snoc. unfold group_step.
  destruct (has_trade_and_range t); [|done].
  rewrite group_push_keys.
  destruct (group_get (trade_key t) (groupByTrade l)) eqn:Hget; [done|].
  apply NoDup_app. split_and!; [done| |apply NoDup_singleton].
  intros k Hk ->%list_elem_of_singleton.
  apply group_get_is_Some in Hk. rewrite Hget in Hk. by destruct Hk.
Qed.

Lemma groupByTrade_members k l t :
  t ∈ l -> has_trade_and_range t = true -> trade_key t = k ->
  k ∈ map fst (groupByTrade l) /\
  t ∈ default [] (group_get k (groupByTrade l)).
Proof.
  intros Hin Ht Hk.
  assert (t ∈ members k l) as Hm by (apply list_elem_of_filter; done).
  rewrite group_get_is_Some, group_get_groupByTrade.
  destruct (members k l); [by apply elem_of_nil in Hm|]. eauto.
Qed.

Lemma group_get_elem k l t :
  t ∈ default [] (group_get k (groupByTrade l)) ->
  t ∈ l /\ has_trade_and_range t = true /\ trade_key t = k.
Proof.
  rewrite group_get_groupByTrade.
  assert (t ∈ members k l -> t ∈ l /\ has_trade_and_range t = true /\ trade_key t = k)
    as Hm by (unfold members; rewrite list_elem_of_filter; tauto).
  destruct (members k l) eqn:E; simpl; [by rewrite elem_of_nil|done].
Qed.

(** ** Trade overlap detector *)

Lemma has_trade_and_range_spec t :
  has_trade_and_range t = true <->
  exists k s e, trade_id t = Some k /\ k <> 0 /\
    planned_start_date t = Some s /\ planned_end_date t = Some e.
Proof.
  unfold has_trade_and_range, truthy_number, truthy_object.
  destruct (trade_id t) as [k|], (planned_start_date t) as [s|],
    (planned_end_date t) as [e|]; simpl;
    rewrite ?andb_true_r, ?andb_false_r, ?negb_true_iff, ?Z.eqb_neq;
    (split; [intros Hk | intros (? & ? & ? & ? & ? & ? & ?)]);
    simplify_eq; eauto 10.
Qed.

Lemma elem_of_compare_ranges t1 t2 o :
  o ∈ compare_ranges t1 t2 <->
  new_Date (planned_start_date t1) <= new_Date (planned_end_date t2) /\
  new_Date (planned_end_date t1) >= new_Date (planned_start_date t2) /\
  o = {| task1 := t1; task2 := t2;
         startOverlap := Z.max (new_Date (planned_start_date t1))
                               (new_Date (planned_start_date t2));
         endOverlap := Z.min (new_Date (planned_end_date t1))
                             (new_Date (planned_end_date t2)) |}.
Proof.
  unfold compare_ranges.
  set (s1 := new_Date (planned_start_date t1)).
  set (e1 := new_Date (planned_end_date t1)).
  set (s2 := new_Date (planned_start_date t2)).
  set (e2 := new_Date (planned_end_date t2)).
  assert ((if s1 >? s2 then s1 else s2) = Z.max s1 s2) as ->
    by (destruct (Z.gtb_spec s1 s2); lia).
  assert ((if e1 <? e2 then e1 else e2) = Z.min e1 e2) as ->
    by (destruct (Z.ltb_spec e1 e2); lia).
  destruct (Z.leb_spec s1 e2), (Z.geb_spec e1 s2); simpl;
    rewrite ?list_elem_of_singleton, ?elem_of_nil; intuition lia.
Qed.

Lemma elem_of_compare_groups g1 g2 o :
  o ∈ compare_groups g1 g2 <->
  exists t1 t2, t1 ∈ g1 /\ t2 ∈ g2 /\ o ∈ compare_ranges t1 t2.
Proof.
  unfold compare_groups. rewrite elem_of_flat_map.
  setoid_rewrite elem_of_flat_map. split.
  - intros (t1 & H1 & t2 & H2 & Ho). by exists t1, t2.
  - intros (t1 & t2 & H1 & H2 & Ho). exists t1. split; [done|]. by exists t2.
Qed.

Lemma elem_of_compare_trades m keys o :
  o ∈ compare_trades m keys <->
  exists l1 ki l2 kj l3,
    keys = l1 ++ ki :: l2 ++ kj :: l3 /\
    o ∈ compare_groups (default [] (group_get ki m))
                       (default [] (group_get kj m)).
Proof.
  induction keys as [|k later IH]; simpl.
  - rewrite elem_of_nil. split; [done|].
    intros (l1 & ? & ? & ? & ? & Heq & _). by destruct l1.
  - rewrite elem_of_app, elem_of_flat_map, IH. split.
    + intros [(kj & Hkj & Ho)|(l1 & ki & l2 & kj & l3 & -> & Ho)].
      * apply list_elem_of_split in Hkj as (l2 & l3 & ->).
        by exists [], k, l2, kj, l3.
      * by exists (k :: l1), ki, l2, kj, l3.
    + intros (l1 & ki & l2 & kj & l3 & Heq & Ho).
      destruct l1 as [|k' l1]; simplify_eq/=.
      * left. exists kj. split; [|done].
        apply elem_of_app. right. apply elem_of_cons. by left.
      * right. by exists l1, ki, l2, kj, l3.
Qed.

(** Every finding compares two grouped tasks of the collection, filed under
    two different trades. *)
Lemma detectTradeOverlaps_sound tasks o :
  o ∈ detectTradeOverlaps tasks ->
  exists t1 t2,
    t1 ∈ tasks /\ t2 ∈ tasks /\
    has_trade_and_range t1 = true /\ has_trade_and_range t2 = true /\
    trade_key t1 <> trade_key t2 /\
    o ∈ compare_ranges t1 t2.
Proof.
  unfold detectTradeOverlaps. cbv zeta.
  intros (l1 & ki & l2 & kj & l3 & Hkeys & Ho)%elem_of_compare_trades.
  apply elem_of_compare_groups in Ho as (t1 & t2 & H1 & H2 & Ho).
  apply group_get_elem in H1 as (? & ? & ?), H2 as (? & ? & ?).
  exists t1, t2. split_and!; try done.
  pose proof (groupByTrade_keys_NoDup tasks) as Hnd.
  rewrite Hkeys in Hnd.
  apply NoDup_app in Hnd as (_ & _ & Hnd).
  apply NoDup_cons in Hnd as (Hnot & _).
  intros Heq. apply Hnot. subst ki kj. rewrite Heq.
  apply elem_of_app. right. apply elem_of_cons. by left.
Qed.

(** Two grouped tasks of different trades are compared, in the order in
    which their trades were first met. *)
Lemma detectTradeOverlaps_complete tasks t1 t2 :
  t1 ∈ tasks -> t2 ∈ tasks ->
  has_trade_and_range t1 = true -> has_trade_and_range t2 = true ->
  trade_key t1 <> trade_key t2 ->
  (forall o, o ∈ compare_ranges t1 t2 -> o ∈ detectTradeOverlaps tasks) \/
  (forall o, o ∈ compare_ranges t2 t1 -> o ∈ detectTradeOverlaps tasks).
Proof.
  intros Hin1 Hin2 Ht1 Ht2 Hne.
  destruct (groupByTrade_members (trade_key t1) tasks t1) as [Hk1 Hg1]; try done.
  destruct (groupByTrade_members (trade_key t2) tasks t2) as [Hk2 Hg2]; try done.
  unfold detectTradeOverlaps. cbv zeta.
  apply list_elem_of_split in Hk1 as (l1 & l2 & Hkeys).
  rewrite Hkeys in Hk2.
  apply elem_of_app in Hk2 as [Hk2|Hk2].
  - right. intros o Ho.
    apply list_elem_of_split in Hk2 as (l3 & l4 & ->).
    apply elem_of_compare_trades.
    exists l3, (trade_key t2), l4, (trade_key t1), l2.
    split; [by rewrite Hkeys, <- app_assoc|].
    apply elem_of_compare_groups. by exists t2, t1.
  - left. intros o Ho.
    apply elem_of_cons in Hk2 as [Hk2|Hk2]; [congruence|].
    apply list_elem_of_split in Hk2 as (l3 & l4 & ->).
    apply elem_of_compare_trades.
    exists l1, (trade_key t1), l3, (trade_key t2), l4.
    split; [done|].
    apply elem_of_compare_groups. by exists t1, t2.
Qed.

(** C1.  Two tasks of the collection filed under two distinct trades, each
    with a planned start and a planned end, are reported as an overlap
    finding (in one order or the other) if and only if [s1 <= e2] and
    [e1 >= s2]; the ranges [Jan 1, Jan 4] and [Jan 5, Jan 10] give no
    finding; and a task without a trade, or without a planned start, or
    without a planned end, is in no finding.  A trade identity is a serial
    key, hence not [0], which the guard of the grouping loop would read as
    an absent trade. *)
Theorem C1_overlap_reported_iff :
  (forall tasks t1 t2 k1 k2 s1 e1 s2 e2,
      t1 ∈ tasks -> t2 ∈ tasks ->
      trade_id t1 = Some k1 -> trade_id t2 = Some k2 ->
      k1 <> 0 -> k2 <> 0 -> k1 <> k2 ->
      planned_start_date t1 = Some s1 -> planned_end_date t1 = Some e1 ->
      planned_start_date t2 = Some s2 -> planned_end_date t2 = Some e2 ->
      (exists o, o ∈ detectTradeOverlaps tasks /\
                 ((task1 o = t1 /\ task2 o = t2) \/
                  (task1 o = t2 /\ task2 o = t1)))
      <-> s1 <= e2 /\ e1 >= s2)
  /\ detectTradeOverlaps apart_tasks = []
  /\ (forall tasks o t,
        trade_id t = None \/ planned_start_date t = None \/
        planned_end_date t = None ->
        o ∈ detectTradeOverlaps tasks -> task1 o <> t /\ task2 o <> t).
Proof.
  split_and!.
  - intros tasks t1 t2 k1 k2 s1 e1 s2 e2 Hin1 Hin2 Hk1 Hk2 Hz1 Hz2 Hne
      Hs1 He1 Hs2 He2.
    assert (has_trade_and_range t1 = true) as Ht1
      by (apply has_trade_and_range_spec; eauto 10).
    assert (has_trade_and_range t2 = true) as Ht2
      by (apply has_trade_and_range_spec; eauto 10).
    assert (trade_key t1 <> trade_key t2) as Hkey
      by (unfold trade_key; rewrite Hk1, Hk2; done).
    split.
    + intros (o & Ho & Horder).
      apply detectTradeOverlaps_sound in Ho
        as (u1 & u2 & _ & _ & _ & _ & _ & Ho).
      apply elem_of_compare_ranges in Ho as (Hle & Hge & ->). simpl in Horder.
      unfold new_Date in Hle, Hge.
      destruct Horder as [[-> ->]|[-> ->]].
      * rewrite Hs1, He2 in Hle. rewrite He1, Hs2 in Hge. simpl in *. lia.
      * rewrite Hs2, He1 in Hle. rewrite He2, Hs1 in Hge. simpl in *. lia.
    + intros [Hle Hge].
      destruct (detectTradeOverlaps_complete tasks t1 t2) as [Hc|Hc];
        try done.
      * eexists. split.
        -- apply Hc, elem_of_compare_ranges.
           rewrite Hs1, He1, Hs2, He2. unfold new_Date. simpl.
           split_and!; [lia|lia|done].
        -- left. done.
      * eexists. split.
        -- apply Hc, elem_of_compare_ranges.
           rewrite Hs1, He1, Hs2, He2. unfold new_Date. simpl.
           split_and!; [lia|lia|done].
        -- right. done.
  - reflexivity.
  - intros tasks o t Hnone Ho.
    apply detectTradeOverlaps_sound in Ho
      as (u1 & u2 & _ & _ & Hu1 & Hu2 & _ & Ho).
    apply elem_of_compare_ranges in Ho as (_ & _ & ->). simpl.
    apply has_trade_and_range_spec in Hu1 as (? & ? & ? & ? & ? & ? & ?).
    apply has_trade_and_range_spec in Hu2 as (? & ? & ? & ? & ? & ? & ?).
    split; intros <-; destruct Hnone as [?|[?|?]]; congruence.
Qed.

Lemma C1_overlap_reported_iff_witness :
  (exists o, o ∈ detectTradeOverlaps boundary_tasks /\
     ((task1 o = example_task 1 (Some 1) (Some (Jan 1)) (Some (Jan 5)) None /\
       task2 o = example_task 2 (Some 2) (Some (Jan 5)) (Some (Jan 10)) None) \/
      (task1 o = example_task 2 (Some 2) (Some (Jan 5)) (Some (Jan 10)) None /\
       task2 o = example_task 1 (Some 1) (Some (Jan 1)) (Some (Jan 5)) None)))
  <-> Jan 1 <= Jan 10 /\ Jan 5 >= Jan 5.
Proof.
  apply (proj1 C1_overlap_reported_iff boundary_tasks
           (example_task 1 (Some 1) (Some (Jan 1)) (Some (Jan 5)) None)
           (example_task 2 (Some 2) (Some (Jan 5)) (Some (Jan 10)) None)
           1 2 (Jan 1) (Jan 5) (Jan 5) (Jan 10)).
  - apply list_elem_of_here.
  - apply list_elem_of_further, list_elem_of_here.
  - reflexivity.
  - reflexivity.
  - lia.
  - lia.
  - lia.
  - reflexivity.
  - reflexivity.
  - reflexivity.
  - reflexivity.
Defined.

(** C2, as stated, fails on the boundary example: the only finding has the
    window [Jan 5, Jan 5] and a day count of [0], not [1]. *)
Lemma C2_boundary_day_count_is_zero :
  exists o,
    detectTradeOverlaps boundary_tasks = [o] /\
    startOverlap o = Jan 5 /\ endOverlap o = Jan 5 /\
    daysOverlap o = 0 /\ daysOverlap o <> 1.
Proof.
  eexists. split; [reflexivity|]. simpl. split_and!; try reflexivity.
  vm_compute. discriminate.
Qed.

(** C2, amended.  For every overlap finding, with [s1, e1] and [s2, e2] the
    planned ranges of its two tasks, the window is
    [max s1 s2, min e1 e2] and the day count is the
    ceiling of (end - start) / 1 day; the ranges [Jan 1, Jan 5] and
    [Jan 5, Jan 10] of two distinct trades give exactly one finding, whose
    window is [Jan 5, Jan 5] and whose day count is [0]. *)
Theorem C2_overlap_window_and_days :
  (forall tasks o,
      o ∈ detectTradeOverlaps tasks ->
      exists s1 e1 s2 e2,
        planned_start_date (task1 o) = Some s1 /\
        planned_end_date (task1 o) = Some e1 /\
        planned_start_date (task2 o) = Some s2 /\
        planned_end_date (task2 o) = Some e2 /\
        startOverlap o = Z.max s1 s2 /\
        endOverlap o = Z.min e1 e2 /\
        MS_PER_DAY * (daysOverlap o - 1) < endOverlap o - startOverlap o
          <= MS_PER_DAY * daysOverlap o)
  /\ detectTradeOverlaps boundary_tasks =
       [ {| task1 := example_task 1 (Some 1) (Some (Jan 1)) (Some (Jan 5)) None;
            task2 := example_task 2 (Some 2) (Some (Jan 5)) (Some (Jan 10)) None;
            startOverlap := Jan 5;
            endOverlap := Jan 5 |} ]
  /\ map daysOverlap (detectTradeOverlaps boundary_tasks) = [0].
Proof.
  split_and!; [|reflexivity|reflexivity].
  intros tasks o Ho.
  apply detectTradeOverlaps_sound in Ho
    as (u1 & u2 & _ & _ & Hu1 & Hu2 & _ & Ho).
  apply elem_of_compare_ranges in Ho as (Hle & Hge & ->).
  apply has_trade_and_range_spec in Hu1 as (? & s1 & e1 & _ & _ & Hs1 & He1).
  apply has_trade_and_range_spec in Hu2 as (? & s2 & e2 & _ & _ & Hs2 & He2).
  rewrite Hs1, He1, Hs2, He2 in *. unfold new_Date in *. simpl in *.
  exists s1, e1, s2, e2. do 6 (split; [done|]).
  apply ceil_days_spec.
Qed.

Lemma C2_overlap_window_and_days_witness :
  exists s1 e1 s2 e2,
    Some (Jan 1) = Some s1 /\ Some (Jan 5) = Some e1 /\
    Some (Jan 5) = Some s2 /\ Some (Jan 10) = Some e2 /\
    Jan 5 = Z.max s1 s2 /\ Jan 5 = Z.min e1 e2 /\
    MS_PER_DAY * (0 - 1) < Jan 5 - Jan 5 <= MS_PER_DAY * 0.
Proof.
  apply (proj1 C2_overlap_window_and_days boundary_tasks
           {| task1 := example_task 1 (Some 1) (Some (Jan 1)) (Some (Jan 5)) None;
              task2 := example_task 2 (Some 2) (Some (Jan 5)) (Some (Jan 10)) None;
              startOverlap := Jan 5;
              endOverlap := Jan 5 |}).
  vm_compute. apply list_elem_of_here.
Defined.

(** ** Schedule conflict detector *)

Lemma dependency_ids_hasDependencies t d :
  d ∈ dependency_ids t -> hasDependencies t = true.
Proof.
  unfold dependency_ids, hasDependencies.
  destruct (depends_on t) as [[|]|]; simpl; rewrite ?elem_of_nil; done.
Qed.

Lemma elem_of_check_dependency taskMap t s d c :
  c ∈ check_dependency taskMap t s d <->
  exists dep e,
    taskMap !! d = Some dep /\ planned_end_date dep = Some e /\ s < e /\
    c = {| conflict_task := t; dependency := dep;
           daysConflict := ceil_days (e - s) |}.
Proof.
  unfold check_dependency. split.
  - destruct (taskMap !! d) as [dep|]; [|by rewrite elem_of_nil].
    destruct (planned_end_date dep) as [e|] eqn:He; [|by rewrite elem_of_nil].
    destruct (Z.ltb_spec s e); [|by rewrite elem_of_nil].
    intros ->%list_elem_of_singleton. by exists dep, e.
  - intros (dep & e & -> & -> & Hlt & ->).
    rewrite (proj2 (Z.ltb_lt s e) Hlt). apply list_elem_of_here.
Qed.

Lemma elem_of_detectScheduleConflicts tasks taskMap c :
  c ∈ detectScheduleConflicts tasks taskMap <->
  exists t d dep s e,
    t ∈ tasks /\ d ∈ dependency_ids t /\
    planned_start_date t = Some s /\
    taskMap !! d = Some dep /\ planned_end_date dep = Some e /\ s < e /\
    c = {| conflict_task := t; dependency := dep;
           daysConflict := ceil_days (e - s) |}.
Proof.
  unfold detectScheduleConflicts. rewrite elem_of_flat_map. split.
  - intros (t & Hin & Hc). unfold check_dependencies in Hc.
    destruct (hasDependencies t); [|by apply elem_of_nil in Hc].
    destruct (planned_start_date t) as [s|] eqn:Hs;
      [|by apply elem_of_nil in Hc].
    apply elem_of_flat_map in Hc as (d & Hd & Hc).
    apply elem_of_check_dependency in Hc as (dep & e & ? & ? & ? & ->).
    by exists t, d, dep, s, e.
  - intros (t & d & dep & s & e & Hin & Hd & Hs & Hdep & He & Hlt & ->).
    exists t. split; [done|]. unfold check_dependencies.
    rewrite (dependency_ids_hasDependencies t d Hd), Hs.
    apply elem_of_flat_map. exists d. split; [done|].
    apply elem_of_check_dependency. by exists dep, e.
Qed.

(** C3.  For a task of the collection with a planned start [s] and a
    declared dependency identity that the lookup resolves to a task with a
    planned end [e], a conflict of the two is flagged if and only if
    [s < e]; its magnitude is the ceiling of (e - s) / 1 day; the magnitude
    of every flagged conflict is strictly positive.  A task starting on
    Jan 10 that depends on a task ending on Jan 15 gives exactly one
    conflict, of 5 days; starting on Jan 20 it gives none. *)
Theorem C3_conflict_flagged_iff :
  (forall tasks taskMap t ids d dep s e,
      t ∈ tasks -> depends_on t = Some ids -> d ∈ ids ->
      planned_start_date t = Some s ->
      taskMap !! d = Some dep -> planned_end_date dep = Some e ->
      ((exists c, c ∈ detectScheduleConflicts tasks taskMap /\
                  conflict_task c = t /\ dependency c = dep)
       <-> s < e) /\
      (forall c, c ∈ detectScheduleConflicts tasks taskMap ->
                 conflict_task c = t -> dependency c = dep ->
                 daysConflict c = ceil_days (e - s) /\
                 MS_PER_DAY * (daysConflict c - 1) < e - s
                   <= MS_PER_DAY * daysConflict c))
  /\ (forall tasks taskMap c,
        c ∈ detectScheduleConflicts tasks taskMap -> 0 < daysConflict c)
  /\ (exists c,
        detectScheduleConflicts (dependent_tasks 10)
          (buildTaskMap (dependent_tasks 10)) = [c] /\
        daysConflict c = 5)
  /\ detectScheduleConflicts (dependent_tasks 20)
       (buildTaskMap (dependent_tasks 20)) = [].
Proof.
  split_and!.
  - intros tasks taskMap t ids d dep s e Hin Hids Hd Hs Hdep He.
    assert (d ∈ dependency_ids t) as Hd'
      by (unfold dependency_ids; rewrite Hids; done).
    split; [split|].
    + intros (c & Hc & Ht & Hdp).
      apply elem_of_detectScheduleConflicts in Hc
        as (t' & d' & dep' & s' & e' & _ & _ & Hs' & _ & He' & Hlt & ->).
      simpl in *. subst t' dep'. congruence.
    + intros Hlt. eexists. split.
      * apply elem_of_detectScheduleConflicts. by exists t, d, dep, s, e.
      * done.
    + intros c Hc Ht Hdp.
      apply elem_of_detectScheduleConflicts in Hc
        as (t' & d' & dep' & s' & e' & _ & _ & Hs' & _ & He' & Hlt & ->).
      simpl in *. subst t' dep'.
      assert (s' = s) as -> by congruence.
      assert (e' = e) as -> by congruence.
      split; [done|]. apply ceil_days_spec.
  - intros tasks taskMap c Hc.
    apply elem_of_detectScheduleConflicts in Hc
      as (t & d & dep & s & e & _ & _ & _ & _ & _ & Hlt & ->).
    simpl. apply (proj1 (ceil_days_pos (e - s))). lia.
  - eexists. split; [vm_compute; reflexivity|]. reflexivity.
  - vm_compute. reflexivity.
Qed.

Lemma C3_conflict_flagged_iff_witness :
  (exists c,
     c ∈ detectScheduleConflicts (dependent_tasks 10)
           (buildTaskMap (dependent_tasks 10)) /\
     conflict_task c =
       example_task 2 (Some 2) (Some (Jan 10)) (Some (Jan 25)) (Some [1]) /\
     dependency c =
       example_task 1 (Some 1) (Some (Jan 1)) (Some (Jan 15)) None)
  <-> Jan 10 < Jan 15.
Proof.
  apply (proj1 C3_conflict_flagged_iff (dependent_tasks 10)
           (buildTaskMap (dependent_tasks 10))
           (example_task 2 (Some 2) (Some (Jan 10)) (Some (Jan 25)) (Some [1]))
           [1] 1
           (example_task 1 (Some 1) (Some (Jan 1)) (Some (Jan 15)) None)
           (Jan 10) (Jan 15)).
  - apply list_elem_of_further, list_elem_of_here.
  - reflexivity.
  - apply list_elem_of_here.
  - reflexivity.
  - vm_compute. reflexivity.
  - reflexivity.
Defined.

(** ** The sort of the inferrer *)

Lemma array_sort_snoc {A} (cmp : A -> A -> Z) l x :
  array_sort cmp (l ++ [x]) = sort_insert cmp x (array_sort cmp l).
Proof. unfold array_sort. by rewrite fold_left_app. Qed.

Lemma sort_insert_perm {A} (cmp : A -> A -> Z) x l :
  sort_insert cmp x l ≡ₚ x :: l.
Proof.
  induction l as [|y l IH]; simpl; [done|].
  destruct (cmp x y <? 0); [done|].
  rewrite IH. apply Permutation_swap.
Qed.

Lemma array_sort_perm {A} (cmp : A -> A -> Z) l : array_sort cmp l ≡ₚ l.
Proof.
  induction l as [|x l IH] using rev_ind; [done|].
  rewrite array_sort_snoc, sort_insert_perm, IH.
  by rewrite Permutation_cons_append.
Qed.

(** An element that the comparator puts after everything goes last. *)
Lemma sort_insert_last {A} (cmp : A -> A -> Z) x l :
  (forall y, y ∈ l -> 0 <= cmp x y) -> sort_insert cmp x l = l ++ [x].
Proof.
  induction l as [|y l IH]; simpl; intros Hall; [done|].
  destruct (Z.ltb_spec (cmp x y) 0) as [Hlt|_].
  - specialize (Hall y (list_elem_of_here _ _)). lia.
  - f_equal. apply IH. intros z Hz. apply Hall. by apply list_elem_of_further.
Qed.

(** A suffix that the comparator puts after the element is not entered. *)
Lemma sort_insert_app {A} (cmp : A -> A -> Z) x l1 l2 :
  (forall y, y ∈ l2 -> cmp x y < 0) ->
  sort_insert cmp x (l1 ++ l2) = sort_insert cmp x l1 ++ l2.
Proof.
  intros Hall. induction l1 as [|y l1 IH]; simpl.
  - destruct l2 as [|z l2]; simpl; [done|].
    specialize (Hall z (list_elem_of_here _ _)).
    by rewrite (proj2 (Z.ltb_lt _ _) Hall).
  - destruct (cmp x y <? 0); [done|]. by rewrite IH.
Qed.

Lemma dated_snoc l t :
  dated (l ++ [t]) =
  dated l ++ (if decide (is_Some (planned_start_date t)) then [t] else []).
Proof. unfold dated. by rewrite filter_app. Qed.

Lemma undated_snoc l t :
  undated (l ++ [t]) =
  undated l ++ (if decide (planned_start_date t = None) then [t] else []).
Proof. unfold undated. by rewrite filter_app. Qed.

(** The sort leaves the tasks without a planned start last, in their
    original order, after the sorted tasks that have one. *)
Lemma array_sort_compare_start l :
  array_sort compare_start l = array_sort compare_start (dated l) ++ undated l.
Proof.
  induction l as [|t l IH] using rev_ind; [done|].
  rewrite array_sort_snoc, IH, dated_snoc, undated_snoc.
  destruct (planned_start_date t) as [s|] eqn:Hs.
  - rewrite decide_True by eauto. rewrite decide_False by done.
    rewrite app_nil_r, array_sort_snoc.
    apply sort_insert_app. intros y Hy.
    apply list_elem_of_filter in Hy as [Hy _].
    unfold compare_start. rewrite Hs, Hy. lia.
  - rewrite decide_False by (by intros [? ?]). rewrite decide_True by done.
    rewrite app_nil_r, app_assoc. apply sort_insert_last.
    intros y _. unfold compare_start. rewrite Hs. lia.
Qed.

Lemma array_sort_dated_elem l t :
  t ∈ array_sort compare_start (dated l) -> is_Some (planned_start_date t).
Proof.
  rewrite array_sort_perm. unfold dated. rewrite list_elem_of_filter. tauto.
Qed.

(** In the sorted list no task without a planned start comes before a task
    that has one. *)
Lemma array_sort_dated_prefix l i t :
  array_sort compare_start l !! i = Some t ->
  is_Some (planned_start_date t) ->
  forall j u, (j < i)%nat -> array_sort compare_start l !! j = Some u ->
              is_Some (planned_start_date u).
Proof.
  rewrite array_sort_compare_start. intros Hi Ht j u Hj Hu.
  apply lookup_app_Some in Hi as [Hi|[Hlen Hi]].
  - apply lookup_lt_Some in Hi.
    rewrite lookup_app_l in Hu by lia.
    apply array_sort_dated_elem with l. by apply list_elem_of_lookup_2 in Hu.
  - apply list_elem_of_lookup_2, list_elem_of_filter in Hi as [Hi _].
    rewrite Hi in Ht. by destruct Ht.
Qed.

Lemma sort_insert_sorted x l :
  Forall (fun t => is_Some (planned_start_date t)) (x :: l) ->
  StronglySorted starts_before l ->
  StronglySorted starts_before (sort_insert compare_start x l).
Proof.
  intros Hd Hs. induction Hs as [|y l Hs IH Hy]; simpl.
  - repeat constructor.
  - apply Forall_cons in Hd as [[sx Hx] Hd].
    apply Forall_cons in Hd as [[sy Hsy] Hd].
    unfold compare_start at 1. rewrite Hx, Hsy.
    destruct (Z.ltb_spec (sx - sy) 0) as [Hlt|Hge].
    + constructor; [by constructor|].
      assert (starts_before x y) as Hxy
        by (unfold starts_before, new_Date; rewrite Hx, Hsy; simpl; lia).
      constructor; [done|].
      eapply Forall_impl; [exact Hy|]. unfold starts_before in *. intros; lia.
    + constructor.
      * apply IH. constructor; eauto.
      * rewrite sort_insert_perm. constructor; [|done].
        unfold starts_before, new_Date. rewrite Hx, Hsy. simpl. lia.
Qed.

(** The tasks that have a planned start are sorted by it. *)
Lemma array_sort_dated_sorted l :
  StronglySorted starts_before (array_sort compare_start (dated l)).
Proof.
  induction l as [|t l IH] using rev_ind; [constructor|].
  rewrite dated_snoc. case_decide as Ht; [|by rewrite app_nil_r].
  rewrite array_sort_snoc. apply sort_insert_sorted; [|done].
  constructor; [done|].
  apply Forall_forall. intros u Hu. by apply array_sort_dated_elem with l.
Qed.

(** ** Missing dependency inferrer *)

Lemma not_declared_spec cur prev :
  not_declared cur prev = true <-> task_id prev ∉ dependency_ids cur.
Proof.
  unfold not_declared, dependency_ids.
  destruct (depends_on cur) as [ids|]; simpl.
  - rewrite negb_true_iff, bool_decide_eq_false. done.
  - split; [intros _; apply not_elem_of_nil|done].
Qed.

Lemma elem_of_check_previous cur s prev c :
  c ∈ check_previous cur s prev <->
  exists e,
    planned_end_date prev = Some e /\
    (0 <= ceil_days (s - e) <= 5) /\
    (task_id prev ∉ dependency_ids cur) /\
    c = {| candidate_task := prev; daysBetween := ceil_days (s - e) |}.
Proof.
  unfold check_previous. cbv zeta. setoid_rewrite <- not_declared_spec. split.
  - destruct (planned_end_date prev) as [e|]; [|by rewrite elem_of_nil].
    destruct (Z.geb_spec (ceil_days (s - e)) 0),
      (Z.leb_spec (ceil_days (s - e)) 5),
      (not_declared cur prev); simpl; try (by rewrite elem_of_nil).
    intros ->%list_elem_of_singleton. exists e. split_and!; (done || lia).
  - intros (e & -> & [Hge Hle] & -> & ->).
    rewrite (proj2 (Z.geb_le _ _) Hge), (proj2 (Z.leb_le _ _) Hle). simpl.
    apply list_elem_of_here.
Qed.

Lemma elem_of_find_previous sorted i cur s c :
  c ∈ find_previous sorted i cur s <->
  exists j prev e,
    (j < i)%nat /\ sorted !! j = Some prev /\
    planned_end_date prev = Some e /\
    (0 <= ceil_days (s - e) <= 5) /\
    (task_id prev ∉ dependency_ids cur) /\
    c = {| candidate_task := prev; daysBetween := ceil_days (s - e) |}.
Proof.
  unfold find_previous. rewrite elem_of_flat_map. split.
  - intros (prev & (j & Hj & Hlt)%elem_of_take & Hc).
    apply elem_of_check_previous in Hc as (e & ? & ? & ? & ->).
    by exists j, prev, e.
  - intros (j & prev & e & Hlt & Hj & He & Hd & Hn & ->).
    exists prev. split; [apply elem_of_take; eauto|].
    apply elem_of_check_previous. by exists e.
Qed.

(** The outer loop body, case by case. *)
Lemma check_task_spec sorted i f :
  f ∈ check_task sorted i <->
  exists cur s,
    sorted !! i = Some cur /\ planned_start_date cur = Some s /\
    hasDependencies cur = false /\
    find_previous sorted i cur s <> [] /\
    f = {| issue_task := cur;
           potentialDependencies := find_previous sorted i cur s |}.
Proof.
  unfold check_task. split.
  - destruct (sorted !! i) as [cur|]; [|by rewrite elem_of_nil].
    destruct (planned_start_date cur) as [s|] eqn:Hs; [|by rewrite elem_of_nil].
    destruct (find_previous sorted i cur s) as [|c cs] eqn:Hf;
      [by rewrite elem_of_nil|].
    destruct (hasDependencies cur) eqn:Hh; [by rewrite elem_of_nil|].
    intros ->%list_elem_of_singleton. exists cur, s.
    rewrite Hf. by split_and!.
  - intros (cur & s & -> & -> & -> & Hne & ->).
    destruct (find_previous sorted i cur s); [done|]. apply list_elem_of_here.
Qed.

Lemma elem_of_scan_sorted sorted f :
  f ∈ scan_sorted sorted <-> exists i, f ∈ check_task sorted i.
Proof.
  unfold scan_sorted. rewrite elem_of_flat_map. split.
  - intros (i & _ & Hf). eauto.
  - intros (i & Hf). exists i. split; [|done].
    apply elem_of_seq. split; [lia|]. simpl.
    apply check_task_spec in Hf as (cur & ? & Hi & _).
    by apply lookup_lt_Some in Hi.
Qed.

Lemma hasDependencies_false t :
  hasDependencies t = false <-> dependency_ids t = [].
Proof.
  unfold hasDependencies, dependency_ids.
  destruct (depends_on t) as [[|]|]; simpl; split; done.
Qed.

(** A candidate is an earlier task of the sorted list, and the task it is
    a candidate for has a planned start: so has the candidate. *)
Lemma candidate_has_range tasks f c :
  f ∈ detectMissingDependencies tasks ->
  c ∈ potentialDependencies f ->
  is_Some (planned_start_date (candidate_task c)) /\
  is_Some (planned_end_date (candidate_task c)).
Proof.
  intros (i & Hf)%elem_of_scan_sorted Hc.
  apply check_task_spec in Hf as (cur & s & Hi & Hs & _ & _ & ->).
  simpl in Hc.
  apply elem_of_find_previous in Hc
    as (j & prev & e & Hj & Hprev & He & _ & _ & ->).
  simpl. split; [|by rewrite He].
  eapply array_sort_dated_prefix; [exact Hi|by rewrite Hs|exact Hj|exact Hprev].
Qed.

Lemma issue_task_has_start tasks f :
  f ∈ detectMissingDependencies tasks ->
  is_Some (planned_start_date (issue_task f)).
Proof.
  intros (i & Hf)%elem_of_scan_sorted.
  apply check_task_spec in Hf as (cur & s & _ & Hs & _ & _ & ->).
  simpl. by rewrite Hs.
Qed.

(** C5, as stated, fails: on no input does a task without a planned start
    appear among the candidate predecessors of a finding. *)
Lemma C5_undated_task_is_never_candidate :
  ~ exists tasks f c,
      f ∈ detectMissingDependencies tasks /\
      c ∈ potentialDependencies f /\
      planned_start_date (candidate_task c) = None /\
      is_Some (planned_end_date (candidate_task c)).
Proof.
  intros (tasks & f & c & Hf & Hc & Hnone & _).
  destruct (candidate_has_range tasks f c Hf Hc) as [[s Hs] _]. congruence.
Qed.

(** C5, amended.  The sort of the inferrer puts the tasks without a planned
    start last (after the tasks that have one, which are in ascending order
    of planned start), and such a task is skipped as a subject; hence a
    task without a planned start is never a candidate predecessor, whether
    or not it has a planned end: every candidate has both a planned start
    and a planned end. *)
Theorem C5_undated_tasks_sort_last :
  (forall tasks,
      array_sort compare_start tasks =
        array_sort compare_start (dated tasks) ++ undated tasks /\
      array_sort compare_start (dated tasks) ≡ₚ dated tasks /\
      StronglySorted starts_before (array_sort compare_start (dated tasks)))
  /\ (forall tasks f,
        f ∈ detectMissingDependencies tasks ->
        is_Some (planned_start_date (issue_task f)))
  /\ (forall tasks f c,
        f ∈ detectMissingDependencies tasks ->
        c ∈ potentialDependencies f ->
        is_Some (planned_start_date (candidate_task c)) /\
        is_Some (planned_end_date (candidate_task c))).
Proof.
  split_and!.
  - intros tasks. split_and!.
    + apply array_sort_compare_start.
    + apply array_sort_perm.
    + apply array_sort_dated_sorted.
  - apply issue_task_has_start.
  - apply candidate_has_range.
Qed.

Lemma C5_undated_tasks_sort_last_witness :
  is_Some (planned_start_date
             (example_task 1 (Some 1) (Some (Jan 2)) (Some (Jan 6)) None)) /\
  is_Some (planned_end_date
             (example_task 1 (Some 1) (Some (Jan 2)) (Some (Jan 6)) None)).
Proof.
  refine (proj2 (proj2 C5_undated_tasks_sort_last) window_tasks
    {| issue_task :=
         example_task 3 (Some 3) (Some (Jan 10)) (Some (Jan 12)) (Some []);
       potentialDependencies :=
         [ {| candidate_task :=
                example_task 1 (Some 1) (Some (Jan 2)) (Some (Jan 6)) None;
              daysBetween := 4 |} ] |}
    {| candidate_task :=
         example_task 1 (Some 1) (Some (Jan 2)) (Some (Jan 6)) None;
       daysBetween := 4 |} _ _).
  - vm_compute. apply list_elem_of_here.
  - simpl. apply list_elem_of_here.
Defined.

(** ** The lookback window *)

Lemma flat_map_filter {A B} (P : A -> bool) (g : A -> B) (l : list A) :
  flat_map (fun x => if P x then [g x] else []) l = map g (filter (fun x => P x) l).
Proof.
  induction l as [|x l IH]; simpl; [done|].
  rewrite filter_cons, IH. destruct (P x); simpl; done.
Qed.

Lemma check_previous_is_candidate cur s prev :
  check_previous cur s prev =
  if Spec.is_candidate 5 cur s prev then [Spec.as_candidate s prev] else [].
Proof.
  unfold check_previous, Spec.is_candidate, Spec.as_candidate, not_declared,
    dependency_ids.
  destruct (planned_end_date prev) as [e|]; [|done]. simpl.
  rewrite Z.geb_leb.
  destruct (depends_on cur) as [ids|]; simpl; done.
Qed.

Lemma find_previous_filter sorted i cur s :
  find_previous sorted i cur s =
  map (Spec.as_candidate s)
      (filter (fun p => Spec.is_candidate 5 cur s p) (take i sorted)).
Proof.
  unfold find_previous. rewrite <- flat_map_filter.
  apply flat_map_ext. intros prev. apply check_previous_is_candidate.
Qed.

Lemma check_task_finding_at sorted i :
  check_task sorted i = Spec.finding_at Spec.default_lookbackDays sorted i.
Proof.
  unfold check_task, Spec.finding_at, Spec.default_lookbackDays.
  destruct (sorted !! i) as [cur|]; [|done].
  destruct (planned_start_date cur) as [s|]; [|done].
  rewrite find_previous_filter.
  destruct (dependency_ids cur) as [|d ds] eqn:Hd.
  - apply hasDependencies_false in Hd. rewrite Hd.
    by destruct (filter _ _).
  - assert (hasDependencies cur = true) as ->.
    { apply dependency_ids_hasDependencies with d. rewrite Hd.
      apply list_elem_of_here. }
    by destruct (map _ _).
Qed.

(** The finding of the example and its candidate. *)
Lemma window_tasks_finding :
  detectMissingDependencies window_tasks =
    [ {| issue_task :=
           example_task 3 (Some 3) (Some (Jan 10)) (Some (Jan 12)) (Some []);
         potentialDependencies :=
           [ {| candidate_task :=
                  example_task 1 (Some 1) (Some (Jan 2)) (Some (Jan 6)) None;
                daysBetween := 4 |} ] |} ].
Proof. vm_compute. reflexivity. Qed.

(** C6, as stated, fails: with a lookback configured to 3 days, the code
    still admits a predecessor that ends 4 days before the task starts,
    which the parameterised inferrer rejects. *)
Lemma C6_configured_lookback_is_ignored :
  (exists f c,
      f ∈ detectMissingDependencies window_tasks /\
      c ∈ potentialDependencies f /\
      daysBetween c = 4 /\ ~ (0 <= daysBetween c <= 3))
  /\ Spec.detectMissingDependencies 3 window_tasks = [].
Proof.
  split; [|vm_compute; reflexivity].
  rewrite window_tasks_finding. eexists. eexists.
  split; [apply list_elem_of_here|].
  split; [apply list_elem_of_here|].
  simpl. split; [done|lia].
Qed.

(** C6, amended.  The lookback window of the inferrer is the constant 5
    and no configuration reaches it: the code finds exactly what the
    parameterised inferrer finds at [lookbackDays = 5], so a predecessor
    is admitted exactly when [0 <= daysBetween <= 5]; and whatever value
    the parameterised analysis is given, its overlaps and its schedule
    conflicts are those of the code. *)
Theorem C6_lookback_is_five :
  (forall tasks,
      detectMissingDependencies tasks =
      Spec.detectMissingDependencies Spec.default_lookbackDays tasks)
  /\ Spec.default_lookbackDays = 5
  /\ (forall tasks f c,
        f ∈ detectMissingDependencies tasks ->
        c ∈ potentialDependencies f ->
        0 <= daysBetween c <= 5)
  /\ (forall lookbackDays rows,
        overlaps <$> Spec.analyzeProjectTasks lookbackDays rows =
          overlaps <$> analyzeProjectTasks rows /\
        conflicts <$> Spec.analyzeProjectTasks lookbackDays rows =
          conflicts <$> analyzeProjectTasks rows)
  /\ (forall rows,
        Spec.analyzeProjectTasks Spec.default_lookbackDays rows =
        analyzeProjectTasks rows).
Proof.
  assert (forall tasks,
             detectMissingDependencies tasks =
             Spec.detectMissingDependencies Spec.default_lookbackDays tasks)
    as Heq.
  { intros tasks. unfold detectMissingDependencies, scan_sorted,
      Spec.detectMissingDependencies. cbv zeta.
    apply flat_map_ext. intros i. apply check_task_finding_at. }
  split_and!; [done|done| | |].
  - intros tasks f c (i & Hf)%elem_of_scan_sorted Hc.
    apply check_task_spec in Hf as (cur & s & _ & _ & _ & _ & ->).
    simpl in Hc.
    apply elem_of_find_previous in Hc as (j & prev & e & _ & _ & _ & Hd & _ & ->).
    done.
  - intros lookbackDays [|t rows]; done.
  - intros [|t rows]; [done|]. simpl. by rewrite Heq.
Qed.

Lemma C6_lookback_is_five_witness : 0 <= 4 <= 5.
Proof.
  refine (proj1 (proj2 (proj2 C6_lookback_is_five)) window_tasks
    {| issue_task :=
         example_task 3 (Some 3) (Some (Jan 10)) (Some (Jan 12)) (Some []);
       potentialDependencies :=
         [ {| candidate_task :=
                example_task 1 (Some 1) (Some (Jan 2)) (Some (Jan 6)) None;
              daysBetween := 4 |} ] |}
    {| candidate_task :=
         example_task 1 (Some 1) (Some (Jan 2)) (Some (Jan 6)) None;
       daysBetween := 4 |} _ _).
  - vm_compute. apply list_elem_of_here.
  - simpl. apply list_elem_of_here.
Defined.

(** ** Task lookup and dependency graph *)

Lemma fold_insert_lookup {V} (f : task -> V) rows (m : gmap Z V) k :
  is_Some (fold_left (fun m t => <[task_id t := f t]> m) rows m !! k) <->
  is_Some (m !! k) \/ k ∈ task_ids rows.
Proof.
  revert m. induction rows as [|t rows IH]; intros m; simpl.
  - rewrite elem_of_nil. tauto.
  - rewrite IH, elem_of_cons, lookup_insert_is_Some. 
    destruct (decide (task_id t = k)); intuition congruence.
Qed.

Lemma buildTaskMap_lookup_None rows d :
  buildTaskMap rows !! d = None <-> d ∉ task_ids rows.
Proof.
  rewrite eq_None_not_Some. unfold buildTaskMap.
  rewrite fold_insert_lookup, lookup_empty, is_Some_alt. tauto.
Qed.

Lemma initGraph_values rows (g : gmap Z (list Z)) k dependents :
  fold_left (fun g t => <[task_id t := []]> g) rows g !! k = Some dependents ->
  dependents = [] \/ g !! k = Some dependents.
Proof.
  revert g. induction rows as [|t rows IH]; intros g; simpl; [by right|].
  intros [->|Hk]%IH; [by left|].
  apply lookup_insert_Some in Hk as [[_ <-]|[_ Hk]]; [by left|by right].
Qed.

Lemma initGraph_over rows : graph_over (task_ids rows) (initGraph rows).
Proof.
  split.
  - intros k. unfold initGraph. rewrite fold_insert_lookup, lookup_empty.
    rewrite is_Some_alt. tauto.
  - intros k dependents x [->|Hk]%initGraph_values Hx.
    + by apply elem_of_nil in Hx.
    + by rewrite lookup_empty in Hk.
Qed.

Lemma add_dependent_over ids taskId g d :
  taskId ∈ ids -> graph_over ids g -> graph_over ids (add_dependent taskId g d).
Proof.
  intros Hid [Hkeys Hvals]. unfold add_dependent.
  destruct (g !! d) as [dependents|] eqn:Hd; [|done]. split.
  - intros k. rewrite lookup_insert_is_Some, <- Hkeys.
    destruct (decide (d = k)) as [<-|]; [|tauto].
    rewrite Hd. split; eauto.
  - intros k l x [[<- <-]|[_ Hk]]%lookup_insert_Some Hx.
    + apply elem_of_app in Hx as [Hx|Hx%list_elem_of_singleton]; [|by subst].
      by apply Hvals with d dependents.
    + by apply Hvals with k l.
Qed.

Lemma fill_dependencies_over ids g t :
  task_id t ∈ ids -> graph_over ids g -> graph_over ids (fill_dependencies g t).
Proof.
  intros Hid. unfold fill_dependencies.
  destruct (hasDependencies t); [|done].
  generalize (dependency_ids t). intros ds. revert g.
  induction ds as [|d ds IH]; intros g Hg; simpl; [done|].
  by apply IH, add_dependent_over.
Qed.

(** The keys of the dependency graph are the identities of the tasks, and
    so are the members of its adjacency lists. *)
Lemma buildDependencyGraph_over rows :
  graph_over (task_ids rows) (buildDependencyGraph rows).
Proof.
  unfold buildDependencyGraph.
  assert (forall ts g,
             (forall t, t ∈ ts -> task_id t ∈ task_ids rows) ->
             graph_over (task_ids rows) g ->
             graph_over (task_ids rows) (fold_left fill_dependencies ts g))
    as Hfold.
  { induction ts as [|t ts IH]; intros g Hts Hg; simpl; [done|].
    apply IH.
    - intros u Hu. apply Hts. by apply list_elem_of_further.
    - apply fill_dependencies_over; [|done]. apply Hts, list_elem_of_here. }
  apply Hfold; [|apply initGraph_over].
  intros t Ht. unfold task_ids. rewrite list_elem_of_In.
  apply in_map. by rewrite <- list_elem_of_In.
Qed.

(** C7.  A dependency identity that is the identity of no task of the
    collection is no key of the dependency graph and belongs to none of its
    adjacency lists, and the task lookup does not resolve it.  The conflict
    detector flags nothing for a dependency identity that the lookup does
    not resolve, or resolves to a task without a planned end; every
    conflict it flags is with a resolved dependency that has a planned end;
    and a resolved dependency that ends after the task starts is flagged
    whatever the other identities are.  A task that depends on an unknown
    identity and on a task ending 5 days after its start gives the one
    conflict, and a graph in which the unknown identity does not appear. *)
Theorem C7_dangling_references_are_skipped :
  (forall rows d,
      d ∉ task_ids rows ->
      buildDependencyGraph rows !! d = None /\
      (forall k dependents,
          buildDependencyGraph rows !! k = Some dependents -> d ∉ dependents) /\
      buildTaskMap rows !! d = None)
  /\ (forall taskMap t s d,
        taskMap !! d = None \/
        (exists dep, taskMap !! d = Some dep /\ planned_end_date dep = None) ->
        check_dependency taskMap t s d = [])
  /\ (forall tasks taskMap c,
        c ∈ detectScheduleConflicts tasks taskMap ->
        exists d,
          d ∈ dependency_ids (conflict_task c) /\
          taskMap !! d = Some (dependency c) /\
          is_Some (planned_end_date (dependency c)))
  /\ (forall tasks taskMap t d dep s e,
        t ∈ tasks -> d ∈ dependency_ids t ->
        planned_start_date t = Some s ->
        taskMap !! d = Some dep -> planned_end_date dep = Some e -> s < e ->
        {| conflict_task := t; dependency := dep;
           daysConflict := ceil_days (e - s) |}
          ∈ detectScheduleConflicts tasks taskMap)
  /\ (buildDependencyGraph dangling_tasks = <[1 := [2]]> (<[2 := []]> ∅) /\
      exists c,
        detectScheduleConflicts dangling_tasks (buildTaskMap dangling_tasks)
          = [c] /\
        task_id (dependency c) = 1 /\ daysConflict c = 5).
Proof.
  split_and!.
  - intros rows d Hd.
    destruct (buildDependencyGraph_over rows) as [Hkeys Hvals].
    split_and!.
    + apply eq_None_not_Some. by rewrite Hkeys.
    + intros k dependents Hk Hin. apply Hd. by apply Hvals with k dependents.
    + by apply buildTaskMap_lookup_None.
  - intros taskMap t s d [Hnone|(dep & Hdep & Hend)]; unfold check_dependency.
    + by rewrite Hnone.
    + by rewrite Hdep, Hend.
  - intros tasks taskMap c Hc.
    apply elem_of_detectScheduleConflicts in Hc
      as (t & d & dep & s & e & _ & Hd & _ & Hdep & He & _ & ->).
    exists d. simpl. by rewrite He.
  - intros tasks taskMap t d dep s e Hin Hd Hs Hdep He Hlt.
    apply elem_of_detectScheduleConflicts. by exists t, d, dep, s, e.
  - vm_compute. reflexivity.
  - eexists. split; [vm_compute; reflexivity|]. split; reflexivity.
Qed.

Lemma C7_dangling_references_are_skipped_witness :
  buildDependencyGraph dangling_tasks !! 99 = None /\
  (forall k dependents,
      buildDependencyGraph dangling_tasks !! k = Some dependents ->
      99 ∉ dependents) /\
  buildTaskMap dangling_tasks !! 99 = None.
Proof.
  apply (proj1 C7_dangling_references_are_skipped dangling_tasks 99).
  vm_compute. intros H. inversion H as [|? ? ? H']; subst.
  inversion H' as [|? ? ? H'']; subst. inversion H''.
Defined.

(** ** Coordination report *)

Lemma count_status_cons s t rows :
  count_status s (t :: rows) =
  ((if decide (status t = Some s) then 1 else 0) + count_status s rows)%nat.
Proof.
  unfold count_status. rewrite filter_cons. by case_decide.
Qed.

(** Every row is counted once: under one of the four statuses, or as a row
    outside the closed set. *)
Lemma count_status_partition rows :
  length rows =
  (count_status "completed" rows + count_status "in_progress" rows
   + count_status "planned" rows + count_status "delayed" rows
   + length (filter (fun t => ~ in_closed_set t) rows))%nat.
Proof.
  induction rows as [|t rows IH]; [done|].
  rewrite !count_status_cons, filter_cons. simpl length. rewrite IH.
  assert (in_closed_set t <->
          status t = Some "completed" \/ status t = Some "in_progress" \/
          status t = Some "planned" \/ status t = Some "delayed") as Hin
    by (unfold in_closed_set; rewrite !elem_of_cons, elem_of_nil; tauto).
  repeat case_decide; simpl; try lia; exfalso; try tauto; congruence.
Qed.

Lemma filter_outside_nil rows :
  Forall in_closed_set rows -> filter (fun t => ~ in_closed_set t) rows = [].
Proof.
  induction 1 as [|t rows Ht _ IH]; [done|].
  rewrite filter_cons, decide_False by tauto. done.
Qed.

(** What a report that was returned is made of. *)
Lemma generateCoordinationReport_Some fmt w projectId r :
  generateCoordinationReport fmt w projectId = Normal (Some r) ->
  exists name others rows groups,
    select_project_name w projectId = Normal (name :: others) /\
    select_project_tasks w projectId = Normal rows /\
    forEach_acc (group_display fmt) rows ∅ = Normal groups /\
    r = {| projectName := name;
           generatedDate := fmt (clock w);
           tasksByTrade := groups;
           totalTasks := length rows;
           completedTasks := count_status "completed" rows;
           inProgressTasks := count_status "in_progress" rows;
           plannedTasks := count_status "planned" rows;
           delayedTasks := count_status "delayed" rows |}.
Proof.
  unfold generateCoordinationReport, assemble_report, try_catch.
  unfold mbind, completion_bind, mret, completion_ret.
  destruct (select_project_name w projectId) as [[|name others]|e];
    [done| |done].
  destruct (select_project_tasks w projectId) as [rows|e]; [|done].
  destruct (forEach_acc _ rows _) as [groups|e] eqn:Hgroups; [|done].
  intros [= <-]. by exists name, others, rows, groups.
Qed.

(** C8.  In a report that the assembler returns, [totalTasks] is the number
    of rows of the project; it is the sum of the four per-status counts
    plus the number of rows whose status is outside the closed set (or
    absent), hence at least that sum, and equal to it when every status is
    in the closed set. *)
Theorem C8_report_counts :
  forall fmt w projectId r,
    generateCoordinationReport fmt w projectId = Normal (Some r) ->
    exists rows,
      select_project_tasks w projectId = Normal rows /\
      totalTasks r = length rows /\
      totalTasks r =
        (completedTasks r + inProgressTasks r + plannedTasks r + delayedTasks r
         + length (filter (fun t => ~ in_closed_set t) rows))%nat /\
      (completedTasks r + inProgressTasks r + plannedTasks r + delayedTasks r
         <= totalTasks r)%nat /\
      (Forall in_closed_set rows ->
       totalTasks r =
         (completedTasks r + inProgressTasks r + plannedTasks r
          + delayedTasks r)%nat).
Proof.
  intros fmt w projectId r Hr.
  apply generateCoordinationReport_Some in Hr
    as (name & others & rows & groups & _ & Hrows & _ & ->).
  exists rows. simpl.
  pose proof (count_status_partition rows) as Hpart.
  split_and!; [done|done|done|lia|].
  intros Hall. rewrite (filter_outside_nil rows Hall) in Hpart.
  simpl in Hpart. lia.
Qed.

Lemma C8_report_counts_witness :
  exists r,
    generateCoordinationReport (fun _ => "d") (one_project status_tasks) 1
      = Normal (Some r) /\
    exists rows,
      select_project_tasks (one_project status_tasks) 1 = Normal rows /\
      totalTasks r = length rows /\
      totalTasks r =
        (completedTasks r + inProgressTasks r + plannedTasks r + delayedTasks r
         + length (filter (fun t => ~ in_closed_set t) rows))%nat /\
      (completedTasks r + inProgressTasks r + plannedTasks r + delayedTasks r
         <= totalTasks r)%nat /\
      (Forall in_closed_set rows ->
       totalTasks r =
         (completedTasks r + inProgressTasks r + plannedTasks r
          + delayedTasks r)%nat).
Proof.
  eexists. split; [vm_compute; reflexivity|].
  apply (C8_report_counts (fun _ => "d") (one_project status_tasks) 1).
  vm_compute. reflexivity.
Defined.

(** No group is ever filed under an inherited property name. *)
Lemma group_display_inherited fmt groups t groups' :
  groups !! "constructor" = None ->
  group_display fmt groups t = Normal groups' ->
  groups' !! "constructor" = None.
Proof.
  intros Hnone. unfold group_display. cbv zeta.
  set (tradeName := string_or (trade_name t) "Sans corps de métier").
  destruct (groups !! tradeName) as [displays|] eqn:Hget.
  - intros [= <-]. rewrite lookup_insert_ne; [done|]. congruence.
  - case_bool_decide as Hin; [done|].
    intros [= <-]. rewrite lookup_insert_ne; [done|].
    intros ->. apply Hin. apply list_elem_of_here.
Qed.

Lemma forEach_acc_constructor fmt rows groups :
  groups !! "constructor" = None ->
  constructor_task ∈ rows ->
  exists e, forEach_acc (group_display fmt) rows groups = Throw e.
Proof.
  revert groups. induction rows as [|t rows IH]; intros groups Hnone Hin.
  - by apply elem_of_nil in Hin.
  - simpl. unfold mbind, completion_bind.
    destruct (group_display fmt groups t) as [groups'|e] eqn:Hstep; [|eauto].
    apply elem_of_cons in Hin as [<-|Hin].
    + unfold group_display in Hstep. simpl in Hstep.
      rewrite Hnone in Hstep. done.
    + apply IH; [|done]. by apply group_display_inherited with fmt groups t.
Qed.

(** The handler turns every thrown error into [null]. *)
Lemma generateCoordinationReport_catch fmt w projectId e :
  assemble_report fmt w projectId = Throw e ->
  generateCoordinationReport fmt w projectId = Normal None.
Proof. unfold generateCoordinationReport. by intros ->. Qed.

(** C9, as stated, fails: the caller cannot tell missing data from a
    crash.  For an identity without project record, for a store that
    rejects the project query, and for a row whose trade is named like an
    inherited property (a [TypeError] in the grouping loop), the assembler
    returns one and the same [null]: whatever the caller computes from the
    result, it computes the same in both cases, and the route answers both
    with the same response. *)
Lemma C9_missing_project_and_crash_give_the_same_null :
  select_project_name (one_project []) 2 = Normal [] /\
  select_project_name store_down 2 = Throw (QueryError "connection refused") /\
  generateCoordinationReport (fun _ => "d") (one_project []) 2
    = generateCoordinationReport (fun _ => "d") store_down 2 /\
  generateCoordinationReport (fun _ => "d") (one_project []) 2
    = generateCoordinationReport (fun _ => "d") (one_project [constructor_task]) 1 /\
  generateCoordinationReport (fun _ => "d") (one_project []) 2 = Normal None /\
  (forall (answer : Type) (caller : completion (option report) -> answer),
      caller (generateCoordinationReport (fun _ => "d") (one_project []) 2)
      = caller (generateCoordinationReport (fun _ => "d") store_down 2)) /\
  coordination_report_route (fun _ => "d") (one_project []) 2
    = coordination_report_route (fun _ => "d") store_down 2.
Proof. split_and!; reflexivity. Qed.

(** C9, amended.  The assembler never completes by an exception.  It
    returns [null] when the project query finds no record for the
    identity, and when an error is thrown while assembling: by the project
    query, by the task query, or by the grouping loop (as for a trade
    named like an inherited property of the grouping object).  It is the
    same [null] in all these cases: the result for a missing project
    equals the result of any run in which an error was thrown, so the
    caller cannot tell missing data from a crash by it.  For a project
    that resolves and has no task it returns a report, with no grouping
    and all counts zero. *)
Theorem C9_report_absence_not_exception :
  forall fmt w projectId,
    (exists result, generateCoordinationReport fmt w projectId = Normal result)
    /\ (select_project_name w projectId = Normal [] ->
        generateCoordinationReport fmt w projectId = Normal None)
    /\ (forall e,
          assemble_report fmt w projectId = Throw e ->
          generateCoordinationReport fmt w projectId = Normal None)
    /\ (forall e,
          select_project_name w projectId = Throw e ->
          generateCoordinationReport fmt w projectId = Normal None)
    /\ (forall e name others,
          select_project_name w projectId = Normal (name :: others) ->
          select_project_tasks w projectId = Throw e ->
          generateCoordinationReport fmt w projectId = Normal None)
    /\ (forall name others rows,
          select_project_name w projectId = Normal (name :: others) ->
          select_project_tasks w projectId = Normal rows ->
          constructor_task ∈ rows ->
          generateCoordinationReport fmt w projectId = Normal None)
    /\ (forall name others,
          select_project_name w projectId = Normal (name :: others) ->
          select_project_tasks w projectId = Normal [] ->
          generateCoordinationReport fmt w projectId =
            Normal (Some {| projectName := name;
                            generatedDate := fmt (clock w);
                            tasksByTrade := ∅;
                            totalTasks := 0;
                            completedTasks := 0;
                            inProgressTasks := 0;
                            plannedTasks := 0;
                            delayedTasks := 0 |}))
    /\ (forall w' projectId' e,
          select_project_name w projectId = Normal [] ->
          assemble_report fmt w' projectId' = Throw e ->
          generateCoordinationReport fmt w' projectId'
            = generateCoordinationReport fmt w projectId).
Proof.
  intros fmt w projectId.
  assert (select_project_name w projectId = Normal [] ->
          generateCoordinationReport fmt w projectId = Normal None) as Hmissing.
  { intros Hnone. unfold generateCoordinationReport, assemble_report.
    by rewrite Hnone. }
  split_and!; [| | | | | | |
    intros w' projectId' e Hnone He;
    by rewrite (Hmissing Hnone),
         (generateCoordinationReport_catch fmt w' projectId' e He)].
  - unfold generateCoordinationReport, try_catch.
    destruct (assemble_report fmt w projectId) as [result|e]; eauto.
  - intros Hnone. unfold generateCoordinationReport, assemble_report.
    by rewrite Hnone.
  - apply generateCoordinationReport_catch.
  - intros e He. apply generateCoordinationReport_catch with e.
    unfold assemble_report. by rewrite He.
  - intros e name others Hname He.
    apply generateCoordinationReport_catch with e.
    unfold assemble_report. by rewrite Hname, He.
  - intros name others rows Hname Hrows Hin.
    destruct (forEach_acc_constructor fmt rows ∅ (lookup_empty _) Hin) as [e He].
    apply generateCoordinationReport_catch with e.
    unfold assemble_report. rewrite Hname, Hrows. simpl.
    unfold mbind, completion_bind. by rewrite He.
  - intros name others Hname Hrows.
    unfold generateCoordinationReport, assemble_report.
    by rewrite Hname, Hrows.
Qed.

Lemma C9_report_absence_not_exception_witness :
  generateCoordinationReport (fun _ => "d") (one_project []) 2 = Normal None /\
  generateCoordinationReport (fun _ => "d") store_down 1 = Normal None /\
  generateCoordinationReport (fun _ => "d") (one_project []) 1 =
    Normal (Some {| projectName := "Chantier";
                    generatedDate := "d";
                    tasksByTrade := ∅;
                    totalTasks := 0;
                    completedTasks := 0;
                    inProgressTasks := 0;
                    plannedTasks := 0;
                    delayedTasks := 0 |}) /\
  generateCoordinationReport (fun _ => "d") store_down 1
    = generateCoordinationReport (fun _ => "d") (one_project []) 2.
Proof.
  split_and!.
  - apply (proj1 (proj2 (C9_report_absence_not_exception
                           (fun _ => "d") (one_project []) 2))).
    reflexivity.
  - apply (proj1 (proj2 (proj2 (proj2 (C9_report_absence_not_exception
                           (fun _ => "d") store_down 1))))
             (QueryError "connection refused")).
    reflexivity.
  - apply (proj1 (proj2 (proj2 (proj2 (proj2 (proj2 (proj2
             (C9_report_absence_not_exception
                (fun _ => "d") (one_project []) 1)))))))
             "Chantier" []); reflexivity.
  - apply (proj2 (proj2 (proj2 (proj2 (proj2 (proj2 (proj2
             (C9_report_absence_not_exception
                (fun _ => "d") (one_project []) 2)))))))
             store_down 1 (QueryError "connection refused")); reflexivity.
Defined.

(** ** The detectors over the store *)

Lemma for_indices_fold {St Pu} (a : loc) (ts : list task)
    (f : St -> task -> heapM St) (g : Pu -> task -> Pu)
    (I : St -> Pu -> store -> Prop) :
  (forall s p σ, I s p σ -> σ !! a = Some ts) ->
  (forall s p σ t, I s p σ -> t ∈ ts ->
     exists s' σ', f s t σ = Some (s', σ') /\ I s' (g p t) σ') ->
  forall m k s p σ,
    (k + m = length ts)%nat -> I s p σ ->
    exists s' σ',
      for_indices a f (seq k m) s σ = Some (s', σ') /\
      I s' (fold_left g (drop k ts) p) σ'.
Proof.
  intros Hread Hstep. induction m as [|m IH]; intros k s p σ Hk HI; simpl.
  - rewrite drop_ge by lia. by exists s, σ.
  - destruct (lookup_lt_is_Some_2 ts k) as [t Ht]; [lia|].
    unfold mbind, heapM_bind, array_at.
    rewrite (Hread s p σ HI). simpl. rewrite Ht.
    destruct (Hstep s p σ t HI) as (s1 & σ1 & -> & HI1);
      [by apply list_elem_of_lookup_2 with k|].
    destruct (IH (S k) s1 (g p t) σ1) as (s2 & σ2 & Hrun & HI2); [lia|done|].
    exists s2, σ2. split; [done|].
    by rewrite (drop_S ts t k Ht).
Qed.

Lemma array_forEach_fold {St Pu} (a : loc) (ts : list task)
    (f : St -> task -> heapM St) (g : Pu -> task -> Pu)
    (I : St -> Pu -> store -> Prop) s p σ :
  (forall s p σ, I s p σ -> σ !! a = Some ts) ->
  (forall s p σ t, I s p σ -> t ∈ ts ->
     exists s' σ', f s t σ = Some (s', σ') /\ I s' (g p t) σ') ->
  I s p σ ->
  exists s' σ',
    array_forEach a f s σ = Some (s', σ') /\ I s' (fold_left g ts p) σ'.
Proof.
  intros Hread Hstep HI.
  unfold array_forEach, mbind, heapM_bind, array_length.
  rewrite (Hread s p σ HI). simpl.
  apply (for_indices_fold a ts f g I Hread Hstep (length ts) 0%nat s p σ);
    [lia|done].
Qed.

Lemma ref_get_snoc k g refs :
  ref_get k refs = None -> ref_get k (refs ++ [(k, g)]) = Some g.
Proof.
  induction refs as [|[k0 g0] refs IH]; simpl.
  - by rewrite decide_True.
  - case_decide; [done|]. apply IH.
Qed.

Lemma ref_get_elem k g refs : ref_get k refs = Some g -> g ∈ map snd refs.
Proof.
  induction refs as [|[k0 g0] refs IH]; simpl; [done|].
  case_decide.
  - intros [= ->]. apply list_elem_of_here.
  - intros Hg. by apply list_elem_of_further, IH.
Qed.

Lemma group_get_groups_in σ k refs :
  group_get k (groups_in σ refs) =
  (fun g => default [] (σ !! g)) <$> ref_get k refs.
Proof.
  induction refs as [|[k0 g0] refs IH]; simpl; [done|].
  by case_decide.
Qed.

Lemma group_push_new k t m :
  group_get k m = None -> group_push k t m = m ++ [(k, [t])].
Proof.
  induction m as [|[k0 g0] m IH]; simpl; [done|].
  case_decide; [done|]. intros Hm. by rewrite IH.
Qed.

Lemma groups_in_insert_fresh (σ : store) g l refs :
  g ∉ map snd refs -> groups_in (<[g := l]> σ) refs = groups_in σ refs.
Proof.
  intros Hg. unfold groups_in. apply map_ext_in.
  intros [k0 g0] Hin%list_elem_of_In. simpl.
  rewrite lookup_insert_ne; [done|].
  intros ->. apply Hg. rewrite list_elem_of_In.
  apply (in_map snd) with (x := (k0, g0)). by rewrite <- list_elem_of_In.
Qed.

Lemma groups_in_push (σ : store) k g l t refs :
  NoDup (map snd refs) -> ref_get k refs = Some g -> σ !! g = Some l ->
  groups_in (<[g := l ++ [t]]> σ) refs = group_push k t (groups_in σ refs).
Proof.
  induction refs as [|[k0 g0] refs IH]; simpl; [done|].
  intros [Hg0 Hnd]%NoDup_cons Hget Hl.
  case_decide as Hk.
  - injection Hget as ->. rewrite lookup_insert_eq, Hl. simpl.
    f_equal. by apply groups_in_insert_fresh.
  - rewrite lookup_insert_ne.
    + f_equal. by apply IH.
    + intros ->. apply Hg0. by apply ref_get_elem with k.
Qed.

Lemma read_groups_run (σ : store) refs :
  (forall g, g ∈ map snd refs -> is_Some (σ !! g)) ->
  read_groups refs σ = Some (groups_in σ refs, σ).
Proof.
  induction refs as [|[k0 g0] refs IH]; simpl; intros Hall; [done|].
  unfold mbind, heapM_bind, array_read.
  destruct (Hall g0 (list_elem_of_here _ _)) as [l Hl]. rewrite Hl. simpl.
  rewrite IH; [done|]. intros g Hg. by apply Hall, list_elem_of_further.
Qed.

(** One turn of the grouping loop writes only to an array allocated by the
    loop, and files the task as [group_step] does. *)
Lemma group_task_step σ0 refs groups σ t :
  grouping_state σ0 refs groups σ ->
  exists refs' σ',
    group_task refs t σ = Some (refs', σ') /\
    grouping_state σ0 refs' (group_step groups t) σ'.
Proof.
  intros (Hsub & Hgroups & Hnd & Hrefs).
  unfold group_task, group_step.
  destruct (has_trade_and_range t); [|by exists refs, σ].
  cbv zeta. unfold mbind, heapM_bind, mret, heapM_ret.
  destruct (ref_get (trade_key t) refs) as [g|] eqn:Hget.
  - rewrite Hget. unfold array_push.
    pose proof (ref_get_elem _ _ _ Hget) as Hg.
    destruct (Hrefs g Hg) as [[l Hl] Hfresh]. rewrite Hl. simpl.
    exists refs, (<[g := l ++ [t]]> σ). split; [done|]. split_and!.
    + by apply insert_subseteq_r.
    + rewrite <- Hgroups. by apply groups_in_push.
    + done.
    + intros g' Hg'. destruct (Hrefs g' Hg') as [Hsome Hnone].
      split; [|done]. rewrite lookup_insert_is_Some. 
      destruct (decide (g = g')); auto.
  - unfold array_literal. cbv zeta.
    set (g := fresh (dom σ)).
    assert (σ !! g = None) as Hσg
      by (apply not_elem_of_dom, is_fresh).
    assert (σ0 !! g = None) as Hσ0g
      by (eapply lookup_weaken_None; eauto).
    assert (g ∉ map snd refs) as Hgrefs.
    { intros Hin. destruct (Hrefs g Hin) as [[? Hsome] _]. congruence. }
    rewrite (ref_get_snoc _ g _ Hget). unfold array_push.
    rewrite lookup_insert_eq. simpl. rewrite insert_insert_eq.
    exists (refs ++ [(trade_key t, g)]), (<[g := [t]]> σ).
    split; [done|]. split_and!.
    + by apply insert_subseteq_r.
    + unfold groups_in at 1. rewrite map_app. simpl.
      rewrite lookup_insert_eq. simpl.
      fold (groups_in (<[g := [t]]> σ) refs).
      rewrite groups_in_insert_fresh by done. rewrite Hgroups.
      symmetry. apply group_push_new.
      rewrite <- Hgroups, group_get_groups_in, Hget. done.
    + rewrite map_app. simpl. apply NoDup_app. split_and!; [done| |].
      * intros g' Hg' ->%list_elem_of_singleton. done.
      * apply NoDup_singleton.
    + intros g'. rewrite map_app, elem_of_app. simpl.
      rewrite list_elem_of_singleton.
      intros [Hg'| ->].
      * destruct (Hrefs g' Hg') as [Hsome Hnone]. split; [|done].
        rewrite lookup_insert_is_Some. destruct (decide (g = g')); auto.
      * split; [|done]. rewrite lookup_insert_eq. eauto.
Qed.

Lemma detectTradeOverlaps_heap_run (σ : store) a ts :
  σ !! a = Some ts ->
  exists σ',
    detectTradeOverlaps_heap a σ = Some (detectTradeOverlaps ts, σ') /\
    σ ⊆ σ'.
Proof.
  intros Ha.
  destruct (array_forEach_fold a ts group_task group_step
              (grouping_state σ) [] [] σ) as (refs & σ1 & Hrun & Hstate).
  - intros s p σ1 (Hsub & _). by apply (lookup_weaken σ σ1).
  - intros s p σ1 t Hstate _. by apply group_task_step.
  - split_and!; [done|done|constructor|].
    intros g Hg. by apply elem_of_nil in Hg.
  - destruct Hstate as (Hsub & Hgroups & _ & Hrefs).
    exists σ1. split; [|done].
    unfold detectTradeOverlaps_heap, mbind, heapM_bind. rewrite Hrun.
    rewrite read_groups_run by (intros g Hg; by apply Hrefs).
    rewrite Hgroups. done.
Qed.

Lemma detectMissingDependencies_heap_run (σ : store) a ts :
  σ !! a = Some ts ->
  exists σ',
    detectMissingDependencies_heap a σ = Some (detectMissingDependencies ts, σ') /\
    σ ⊆ σ'.
Proof.
  intros Ha.
  set (c := fresh (dom σ)).
  assert (σ !! c = None) as Hc by (apply not_elem_of_dom, is_fresh).
  exists (<[c := array_sort compare_start ts]> σ). split.
  - unfold detectMissingDependencies_heap, array_spread, array_sort_in_place,
      array_read, array_literal, mbind, heapM_bind.
    rewrite Ha. simpl. fold c.
    rewrite lookup_insert_eq. simpl. rewrite insert_insert_eq.
    rewrite lookup_insert_eq. simpl. done.
  - by apply insert_subseteq.
Qed.

Lemma detectScheduleConflicts_heap_run (σ : store) a ts taskMap :
  σ !! a = Some ts ->
  detectScheduleConflicts_heap a taskMap σ =
    Some (detectScheduleConflicts ts taskMap, σ).
Proof.
  intros Ha.
  destruct (array_forEach_fold a ts
              (fun found t => mret (found ++ check_dependencies taskMap t))
              (fun found t => found ++ check_dependencies taskMap t)
              (fun s p σ1 => s = p /\ σ1 = σ) [] [] σ)
    as (found & σ1 & Hrun & -> & ->).
  - by intros s p σ1 [_ ->].
  - intros s p σ1 t [-> ->] _. eexists _, _. split; [reflexivity|done].
  - done.
  - unfold detectScheduleConflicts_heap. rewrite Hrun. do 2 f_equal.
    unfold detectScheduleConflicts.
    assert (forall l acc,
               fold_left (fun found t => found ++ check_dependencies taskMap t)
                         l acc
               = acc ++ flat_map (check_dependencies taskMap) l) as Hfold.
    { induction l as [|t l IH]; intros acc; simpl.
      - by rewrite app_nil_r.
      - by rewrite IH, app_assoc. }
    by rewrite Hfold.
Qed.

(** Sorting the array of the caller itself would reorder it: the copy made
    by the inferrer is what keeps its input as it was. *)
Lemma array_sort_in_place_reorders :
  exists σ',
    array_sort_in_place compare_start 1%positive unsorted_store = Some (tt, σ') /\
    σ' !! 1%positive <> unsorted_store !! 1%positive.
Proof.
  eexists. split; [reflexivity|]. vm_compute. discriminate.
Qed.

(** C10.  Run on a store in which [tasks] designates the array [ts], each
    of the three detectors returns, finds what it finds on the contents
    [ts], and leaves every array of the initial store as it was: in
    particular [tasks] still designates [ts], with the same tasks in the
    same order (the inferrer sorts a new array; the overlap detector
    pushes only on arrays it has created). *)
Theorem C10_detectors_keep_their_input :
  forall (σ : store) (tasks : loc) (ts : list task) (taskMap : gmap Z task),
    σ !! tasks = Some ts ->
    (exists σ',
        detectTradeOverlaps_heap tasks σ = Some (detectTradeOverlaps ts, σ') /\
        σ' !! tasks = Some ts /\
        forall a l, σ !! a = Some l -> σ' !! a = Some l)
    /\ (exists σ',
          detectMissingDependencies_heap tasks σ
            = Some (detectMissingDependencies ts, σ') /\
          σ' !! tasks = Some ts /\
          forall a l, σ !! a = Some l -> σ' !! a = Some l)
    /\ (exists σ',
          detectScheduleConflicts_heap tasks taskMap σ
            = Some (detectScheduleConflicts ts taskMap, σ') /\
          σ' !! tasks = Some ts /\
          forall a l, σ !! a = Some l -> σ' !! a = Some l).
Proof.
  intros σ tasks ts taskMap Hts. split_and!.
  - destruct (detectTradeOverlaps_heap_run σ tasks ts Hts) as (σ' & Hrun & Hsub).
    exists σ'. split_and!; [done| |].
    + by apply (lookup_weaken σ σ').
    + intros a l Ha. by apply (lookup_weaken σ σ').
  - destruct (detectMissingDependencies_heap_run σ tasks ts Hts)
      as (σ' & Hrun & Hsub).
    exists σ'. split_and!; [done| |].
    + by apply (lookup_weaken σ σ').
    + intros a l Ha. by apply (lookup_weaken σ σ').
  - exists σ. split_and!; [|done|done].
    by apply detectScheduleConflicts_heap_run.
Qed.

Lemma C10_detectors_keep_their_input_witness :
  (exists σ',
      detectTradeOverlaps_heap 1%positive boundary_store
        = Some (detectTradeOverlaps boundary_tasks, σ') /\
      σ' !! 1%positive = Some boundary_tasks /\
      forall a l, boundary_store !! a = Some l -> σ' !! a = Some l)
  /\ (exists σ',
        detectMissingDependencies_heap 1%positive boundary_store
          = Some (detectMissingDependencies boundary_tasks, σ') /\
        σ' !! 1%positive = Some boundary_tasks /\
        forall a l, boundary_store !! a = Some l -> σ' !! a = Some l)
  /\ (exists σ',
        detectScheduleConflicts_heap 1%positive ∅ boundary_store
          = Some (detectScheduleConflicts boundary_tasks ∅, σ') /\
        σ' !! 1%positive = Some boundary_tasks /\
        forall a l, boundary_store !! a = Some l -> σ' !! a = Some l).
Proof.
  apply (C10_detectors_keep_their_input boundary_store 1%positive
           boundary_tasks ∅).
  reflexivity.
Defined.

(** * Further properties of the detectors *)

(** ** Overlap findings *)

Lemma ceil_days_nonneg (x : Z) : 0 <= x -> 0 <= ceil_days x.
Proof.
  pose proof (ceil_days_spec x) as Hc. pose proof MS_PER_DAY_pos. nia.
Qed.

Lemma compare_ranges_swap t1 t2 o :
  o ∈ compare_ranges t1 t2 ->
  {| task1 := t2; task2 := t1;
     startOverlap := startOverlap o; endOverlap := endOverlap o |}
    ∈ compare_ranges t2 t1.
Proof.
  intros (Hle & Hge & ->)%elem_of_compare_ranges.
  apply elem_of_compare_ranges. simpl.
  split_and!; [lia|lia|]. by rewrite Z.max_comm, Z.min_comm.
Qed.

(** X1.  When the planned range of each of the two tasks of a finding
    starts no later than it ends, the reported window is not empty, lies
    inside both ranges, and the logged day count is not negative. *)
Theorem X1_overlap_window_inside_ranges tasks o s1 e1 s2 e2 :
  o ∈ detectTradeOverlaps tasks ->
  planned_start_date (task1 o) = Some s1 ->
  planned_end_date (task1 o) = Some e1 ->
  planned_start_date (task2 o) = Some s2 ->
  planned_end_date (task2 o) = Some e2 ->
  s1 <= e1 -> s2 <= e2 ->
  startOverlap o <= endOverlap o /\
  (s1 <= startOverlap o /\ endOverlap o <= e1) /\
  (s2 <= startOverlap o /\ endOverlap o <= e2) /\
  0 <= daysOverlap o.
Proof.
  intros Ho Hs1 He1 Hs2 He2 Hr1 Hr2.
  apply detectTradeOverlaps_sound in Ho as (u1 & u2 & _ & _ & _ & _ & _ & Ho).
  apply elem_of_compare_ranges in Ho as (Hle & Hge & ->).
  simpl in *. rewrite Hs1, He1, Hs2, He2 in *. unfold new_Date in *.
  simpl in *. split_and!; try lia.
  unfold daysOverlap. simpl. apply ceil_days_nonneg. lia.
Qed.

Lemma X1_overlap_window_inside_ranges_witness :
  Jan 5 <= Jan 5 /\
  (Jan 1 <= Jan 5 /\ Jan 5 <= Jan 5) /\
  (Jan 5 <= Jan 5 /\ Jan 5 <= Jan 10) /\
  0 <= 0.
Proof.
  apply (X1_overlap_window_inside_ranges boundary_tasks
           {| task1 := example_task 1 (Some 1) (Some (Jan 1)) (Some (Jan 5)) None;
              task2 := example_task 2 (Some 2) (Some (Jan 5)) (Some (Jan 10)) None;
              startOverlap := Jan 5;
              endOverlap := Jan 5 |}
           (Jan 1) (Jan 5) (Jan 5) (Jan 10)).
  - vm_compute. apply list_elem_of_here.
  - reflexivity.
  - reflexivity.
  - reflexivity.
  - reflexivity.
  - vm_compute. discriminate.
  - vm_compute. discriminate.
Defined.

(** X2.  The pairs of tasks reported and their windows do not depend on the
    order of the rows: after any reordering of the collection, every
    finding is reported again with the same window, with its two tasks in
    the same order or swapped. *)
Theorem X2_overlaps_up_to_row_order tasks tasks' o :
  tasks ≡ₚ tasks' ->
  o ∈ detectTradeOverlaps tasks ->
  exists o',
    o' ∈ detectTradeOverlaps tasks' /\
    startOverlap o' = startOverlap o /\ endOverlap o' = endOverlap o /\
    ((task1 o' = task1 o /\ task2 o' = task2 o) \/
     (task1 o' = task2 o /\ task2 o' = task1 o)).
Proof.
  intros Hperm Ho.
  apply detectTradeOverlaps_sound in Ho
    as (u1 & u2 & Hin1 & Hin2 & Hu1 & Hu2 & Hne & Ho).
  rewrite Hperm in Hin1, Hin2.
  assert (task1 o = u1 /\ task2 o = u2) as [H1 H2].
  { apply elem_of_compare_ranges in Ho as (_ & _ & ->). done. }
  destruct (detectTradeOverlaps_complete tasks' u1 u2) as [Hc|Hc]; try done.
  - exists o. split; [by apply Hc|]. split_and!; try done. by left.
  - eexists. split; [apply Hc, compare_ranges_swap, Ho|].
    simpl. split_and!; try done. right. done.
Qed.

Lemma X2_overlaps_up_to_row_order_witness :
  exists o',
    o' ∈ detectTradeOverlaps (reverse boundary_tasks) /\
    startOverlap o' = Jan 5 /\ endOverlap o' = Jan 5 /\
    ((task1 o' = example_task 1 (Some 1) (Some (Jan 1)) (Some (Jan 5)) None /\
      task2 o' = example_task 2 (Some 2) (Some (Jan 5)) (Some (Jan 10)) None) \/
     (task1 o' = example_task 2 (Some 2) (Some (Jan 5)) (Some (Jan 10)) None /\
      task2 o' = example_task 1 (Some 1) (Some (Jan 1)) (Some (Jan 5)) None)).
Proof.
  apply (X2_overlaps_up_to_row_order boundary_tasks (reverse boundary_tasks)
           {| task1 := example_task 1 (Some 1) (Some (Jan 1)) (Some (Jan 5)) None;
              task2 := example_task 2 (Some 2) (Some (Jan 5)) (Some (Jan 10)) None;
              startOverlap := Jan 5;
              endOverlap := Jan 5 |}).
  - symmetry. apply reverse_Permutation.
  - vm_compute. apply list_elem_of_here.
Defined.

(** X3.  A finding never pairs two tasks of the same trade, nor a task with
    itself; both its tasks are rows of the collection. *)
Theorem X3_overlap_never_within_a_trade tasks o :
  o ∈ detectTradeOverlaps tasks ->
  trade_id (task1 o) <> trade_id (task2 o) /\
  task1 o <> task2 o /\
  task1 o ∈ tasks /\ task2 o ∈ tasks.
Proof.
  intros Ho.
  apply detectTradeOverlaps_sound in Ho
    as (u1 & u2 & Hin1 & Hin2 & _ & _ & Hne & Ho).
  apply elem_of_compare_ranges in Ho as (_ & _ & ->). simpl.
  unfold trade_key in Hne. split_and!; try done; congruence.
Qed.

Lemma X3_overlap_never_within_a_trade_witness :
  Some 1 <> Some 2 /\
  example_task 1 (Some 1) (Some (Jan 1)) (Some (Jan 5)) None <>
    example_task 2 (Some 2) (Some (Jan 5)) (Some (Jan 10)) None /\
  example_task 1 (Some 1) (Some (Jan 1)) (Some (Jan 5)) None ∈ boundary_tasks /\
  example_task 2 (Some 2) (Some (Jan 5)) (Some (Jan 10)) None ∈ boundary_tasks.
Proof.
  apply (X3_overlap_never_within_a_trade boundary_tasks
           {| task1 := example_task 1 (Some 1) (Some (Jan 1)) (Some (Jan 5)) None;
              task2 := example_task 2 (Some 2) (Some (Jan 5)) (Some (Jan 10)) None;
              startOverlap := Jan 5;
              endOverlap := Jan 5 |}).
  vm_compute. apply list_elem_of_here.
Defined.

(** ** Task lookup *)

Lemma buildTaskMap_snoc rows t :
  buildTaskMap (rows ++ [t]) = <[task_id t := t]> (buildTaskMap rows).
Proof. unfold buildTaskMap. by rewrite fold_left_app. Qed.

(** The lookup resolves an identity to the last row that carries it. *)
Lemma buildTaskMap_lookup rows i :
  buildTaskMap rows !! i = last (filter (fun t => task_id t = i) rows).
Proof.
  induction rows as [|t rows IH] using rev_ind; [done|].
  rewrite buildTaskMap_snoc, filter_app, lookup_insert.
  rewrite filter_cons, filter_nil.
  destruct (decide (task_id t = i)) as [Heq|Hne].
  - by rewrite last_snoc.
  - by rewrite app_nil_r.
Qed.

Lemma buildTaskMap_lookup_Some rows i t :
  buildTaskMap rows !! i = Some t -> t ∈ rows /\ task_id t = i.
Proof.
  rewrite buildTaskMap_lookup. intros Hlast%last_Some_elem_of.
  by apply list_elem_of_filter in Hlast as [? ?].
Qed.

Lemma task_ids_inj rows t u :
  NoDup (task_ids rows) -> t ∈ rows -> u ∈ rows -> task_id t = task_id u ->
  t = u.
Proof.
  induction rows as [|r rows IH]; simpl; intros Hnd Ht Hu Heq.
  - by apply elem_of_nil in Ht.
  - apply NoDup_cons in Hnd as [Hr Hnd].
    assert (forall v, v ∈ rows -> task_id v ∈ task_ids rows) as Hids.
    { intros v Hv. unfold task_ids. rewrite list_elem_of_In.
      apply in_map. by rewrite <- list_elem_of_In. }
    apply elem_of_cons in Ht as [->|Ht], Hu as [->|Hu]; try done.
    + exfalso. apply Hr. rewrite Heq. by apply Hids.
    + exfalso. apply Hr. rewrite <- Heq. by apply Hids.
    + by apply IH.
Qed.

Lemma buildTaskMap_lookup_row rows t :
  NoDup (task_ids rows) -> t ∈ rows -> buildTaskMap rows !! task_id t = Some t.
Proof.
  intros Hnd Ht.
  destruct (buildTaskMap rows !! task_id t) as [u|] eqn:Hu.
  - apply buildTaskMap_lookup_Some in Hu as [Hu Hid].
    f_equal. by apply (task_ids_inj rows).
  - rewrite buildTaskMap_lookup in Hu. apply last_None in Hu.
    assert (t ∈ filter (fun u => task_id u = task_id t) rows) as Hin
      by (by apply list_elem_of_filter).
    rewrite Hu in Hin. by apply elem_of_nil in Hin.
Qed.

(** X4.  The task lookup built by [analyzeProjectTasks] resolves an
    identity to the last row that carries it, hence only to a row of the
    collection with that identity, and to nothing for an identity no row
    carries; when the identities of the rows are distinct, every row is
    found back under its identity. *)
Theorem X4_task_lookup_round_trip rows :
  (forall i, buildTaskMap rows !! i = last (filter (fun t => task_id t = i) rows))
  /\ (forall i t, buildTaskMap rows !! i = Some t -> t ∈ rows /\ task_id t = i)
  /\ (forall i, i ∉ task_ids rows -> buildTaskMap rows !! i = None)
  /\ (NoDup (task_ids rows) ->
      forall t, t ∈ rows -> buildTaskMap rows !! task_id t = Some t).
Proof.
  split_and!.
  - apply buildTaskMap_lookup.
  - apply buildTaskMap_lookup_Some.
  - intros i Hi. by apply buildTaskMap_lookup_None.
  - intros Hnd t Ht. by apply buildTaskMap_lookup_row.
Qed.

Lemma X4_task_lookup_round_trip_witness :
  buildTaskMap dangling_tasks !! 2 =
    Some (example_task 2 (Some 2) (Some (Jan 10)) (Some (Jan 25)) (Some [99; 1]))
  /\ buildTaskMap dangling_tasks !! 99 = None.
Proof.
  split.
  - refine (proj2 (proj2 (proj2 (X4_task_lookup_round_trip dangling_tasks))) _
              (example_task 2 (Some 2) (Some (Jan 10)) (Some (Jan 25))
                 (Some [99; 1])) _).
    + vm_compute. repeat constructor; intros H; inversion H as [|? ? ? H'];
        subst; inversion H'.
    + apply list_elem_of_further, list_elem_of_here.
  - apply (proj1 (proj2 (proj2 (X4_task_lookup_round_trip dangling_tasks)))).
    vm_compute. intros H. inversion H as [|? ? ? H']; subst.
    inversion H' as [|? ? ? H'']; subst. inversion H''.
Defined.

(** ** Schedule conflicts *)

Lemma check_dependency_length taskMap t s d :
  (length (check_dependency taskMap t s d) <= 1)%nat.
Proof.
  unfold check_dependency.
  destruct (taskMap !! d) as [dep|]; [|simpl; lia].
  destruct (planned_end_date dep) as [e|]; [|simpl; lia].
  destruct (s <? e); simpl; lia.
Qed.

Lemma check_dependencies_length taskMap t :
  (length (check_dependencies taskMap t) <= length (dependency_ids t))%nat.
Proof.
  unfold check_dependencies.
  destruct (hasDependencies t); [|simpl; lia].
  destruct (planned_start_date t) as [s|]; [|simpl; lia].
  induction (dependency_ids t) as [|d ds IH]; simpl; [done|].
  rewrite length_app. pose proof (check_dependency_length taskMap t s d). lia.
Qed.

(** X5.  The detector flags at most one conflict per declared dependency:
    the number of conflicts is at most the total number of dependency
    identities the tasks declare; a collection without any declared
    dependency gives no conflict. *)
Theorem X5_conflicts_at_most_declarations tasks taskMap :
  (length (detectScheduleConflicts tasks taskMap)
   <= sum_list_with (fun t => length (dependency_ids t)) tasks)%nat
  /\ (Forall (fun t => dependency_ids t = []) tasks ->
      detectScheduleConflicts tasks taskMap = []).
Proof.
  assert (length (detectScheduleConflicts tasks taskMap)
          <= sum_list_with (fun t => length (dependency_ids t)) tasks)%nat
    as Hbound.
  { unfold detectScheduleConflicts.
    induction tasks as [|t tasks IH]; simpl; [done|].
    rewrite length_app.
    pose proof (check_dependencies_length taskMap t). lia. }
  split; [done|].
  intros Hall. apply length_zero_iff_nil.
  assert (sum_list_with (fun t => length (dependency_ids t)) tasks = 0%nat)
    as Hzero.
  { clear Hbound. induction Hall as [|t tasks Ht _ IH]; simpl; [done|].
    by rewrite Ht, IH. }
  lia.
Qed.

Lemma X5_conflicts_at_most_declarations_witness :
  detectScheduleConflicts apart_tasks ∅ = [].
Proof.
  apply (proj2 (X5_conflicts_at_most_declarations apart_tasks ∅)).
  repeat constructor.
Defined.

(** X6.  Self-dependencies are not set aside: with distinct identities, a
    task that declares its own identity and is planned to start before it
    ends is flagged in conflict with itself. *)
Theorem X6_self_dependency_is_flagged rows t s e :
  NoDup (task_ids rows) -> t ∈ rows ->
  task_id t ∈ dependency_ids t ->
  planned_start_date t = Some s -> planned_end_date t = Some e -> s < e ->
  {| conflict_task := t; dependency := t; daysConflict := ceil_days (e - s) |}
    ∈ detectScheduleConflicts rows (buildTaskMap rows).
Proof.
  intros Hnd Hin Hself Hs He Hlt.
  apply elem_of_detectScheduleConflicts.
  exists t, (task_id t), t, s, e. split_and!; try done.
  by apply buildTaskMap_lookup_row.
Qed.

Lemma X6_self_dependency_is_flagged_witness :
  {| conflict_task :=
       example_task 1 (Some 1) (Some (Jan 1)) (Some (Jan 15)) (Some [1]);
     dependency :=
       example_task 1 (Some 1) (Some (Jan 1)) (Some (Jan 15)) (Some [1]);
     daysConflict := ceil_days (Jan 15 - Jan 1) |}
    ∈ detectScheduleConflicts self_dependent_tasks
        (buildTaskMap self_dependent_tasks).
Proof.
  apply (X6_self_dependency_is_flagged self_dependent_tasks
           (example_task 1 (Some 1) (Some (Jan 1)) (Some (Jan 15)) (Some [1]))
           (Jan 1) (Jan 15)).
  - vm_compute. repeat constructor. intros H. inversion H.
  - apply list_elem_of_here.
  - apply list_elem_of_here.
  - reflexivity.
  - reflexivity.
  - reflexivity.
Defined.

(** ** Dependency graph *)

Lemma add_dependent_lookup taskId g d' d :
  add_dependent taskId g d' !! d =
  (fun l => l ++ (if decide (d' = d) then [taskId] else [])) <$> g !! d.
Proof.
  unfold add_dependent.
  destruct (g !! d') as [dependents|] eqn:Hd'.
  - rewrite lookup_insert. destruct (decide (d' = d)) as [<-|Hne].
    + by rewrite Hd'.
    + destruct (g !! d); simpl; [by rewrite app_nil_r|done].
  - destruct (decide (d' = d)) as [<-|Hne].
    + by rewrite Hd'.
    + destruct (g !! d); simpl; [by rewrite app_nil_r|done].
Qed.

Lemma fold_add_dependent_lookup taskId ds g d :
  fold_left (add_dependent taskId) ds g !! d =
  (fun l => l ++ flat_map (fun d' => if decide (d' = d) then [taskId] else []) ds)
    <$> g !! d.
Proof.
  revert g. induction ds as [|d' ds IH]; intros g; simpl.
  - destruct (g !! d); simpl; [by rewrite app_nil_r|done].
  - rewrite IH, add_dependent_lookup.
    destruct (g !! d); simpl; [by rewrite <- app_assoc|done].
Qed.

Lemma fill_dependencies_lookup g t d :
  fill_dependencies g t !! d =
  (fun l => l ++ dependents_of d [t]) <$> g !! d.
Proof.
  unfold fill_dependencies, dependents_of. simpl. rewrite app_nil_r.
  destruct (hasDependencies t) eqn:Hh.
  - apply fold_add_dependent_lookup.
  - apply hasDependencies_false in Hh. rewrite Hh. simpl.
    destruct (g !! d); simpl; [by rewrite app_nil_r|done].
Qed.

Lemma dependents_of_app d rows1 rows2 :
  dependents_of d (rows1 ++ rows2) = dependents_of d rows1 ++ dependents_of d rows2.
Proof. unfold dependents_of. apply flat_map_app. Qed.

Lemma fold_fill_dependencies_lookup rows g d :
  fold_left fill_dependencies rows g !! d =
  (fun l => l ++ dependents_of d rows) <$> g !! d.
Proof.
  revert g. induction rows as [|t rows IH]; intros g.
  - simpl. destruct (g !! d); simpl; [by rewrite app_nil_r|done].
  - change (fold_left fill_dependencies (t :: rows) g)
      with (fold_left fill_dependencies rows (fill_dependencies g t)).
    rewrite IH, fill_dependencies_lookup.
    change (t :: rows) with ([t] ++ rows). rewrite dependents_of_app.
    destruct (g !! d); simpl; [by rewrite <- app_assoc|done].
Qed.

Lemma initGraph_lookup rows d :
  initGraph rows !! d = if decide (d ∈ task_ids rows) then Some [] else None.
Proof.
  destruct (initGraph_over rows) as [Hkeys _].
  case_decide as Hd.
  - apply Hkeys in Hd as [dependents Hd]. rewrite Hd. f_equal.
    apply initGraph_values in Hd as [->|Hd]; [done|].
    by rewrite lookup_empty in Hd.
  - apply eq_None_not_Some. by rewrite Hkeys.
Qed.

Lemma buildDependencyGraph_lookup rows d :
  buildDependencyGraph rows !! d =
  if decide (d ∈ task_ids rows) then Some (dependents_of d rows) else None.
Proof.
  unfold buildDependencyGraph.
  rewrite fold_fill_dependencies_lookup, initGraph_lookup.
  by case_decide.
Qed.

Lemma elem_of_dependents_of d rows x :
  x ∈ dependents_of d rows <->
  exists t, t ∈ rows /\ d ∈ dependency_ids t /\ task_id t = x.
Proof.
  unfold dependents_of. rewrite elem_of_flat_map. split.
  - intros (t & Ht & (d' & Hd' & Hx)%elem_of_flat_map).
    case_decide; [|by apply elem_of_nil in Hx].
    apply list_elem_of_singleton in Hx. subst. by exists t.
  - intros (t & Ht & Hd & <-). exists t. split; [done|].
    apply elem_of_flat_map. exists d. split; [done|].
    rewrite decide_True by done. apply list_elem_of_here.
Qed.

(** X7.  The dependency graph maps the identity of each row to the
    identities of the tasks that declare it, one occurrence per
    declaration, in the order of the rows, and has no other key: the
    adjacency list of [d] holds [x] exactly when a row of identity [x]
    declares [d]. *)
Theorem X7_graph_lists_the_dependents rows d :
  buildDependencyGraph rows !! d =
    (if decide (d ∈ task_ids rows) then Some (dependents_of d rows) else None)
  /\ (forall dependents x,
        buildDependencyGraph rows !! d = Some dependents ->
        x ∈ dependents <->
        exists t, t ∈ rows /\ d ∈ dependency_ids t /\ task_id t = x).
Proof.
  split; [apply buildDependencyGraph_lookup|].
  intros dependents x. rewrite buildDependencyGraph_lookup.
  case_decide; [|done]. intros [= <-]. apply elem_of_dependents_of.
Qed.

Lemma X7_graph_lists_the_dependents_witness :
  2 ∈ [2] <->
  exists t, t ∈ dangling_tasks /\ 1 ∈ dependency_ids t /\ task_id t = 2.
Proof.
  apply (proj2 (X7_graph_lists_the_dependents dangling_tasks 1) [2] 2).
  vm_compute. reflexivity.
Defined.

(** X8.  The conflict detector and the graph agree: with the lookup built
    from the rows, every conflict is along an edge of the dependency
    graph, the identity of its task being in the adjacency list of the
    identity of its dependency. *)
Theorem X8_conflicts_follow_graph_edges rows c :
  c ∈ detectScheduleConflicts rows (buildTaskMap rows) ->
  exists dependents,
    buildDependencyGraph rows !! task_id (dependency c) = Some dependents /\
    task_id (conflict_task c) ∈ dependents.
Proof.
  intros Hc.
  apply elem_of_detectScheduleConflicts in Hc
    as (t & d & dep & s & e & Hin & Hd & _ & Hdep & _ & _ & ->).
  apply buildTaskMap_lookup_Some in Hdep as [Hdep Hid]. simpl.
  exists (dependents_of d rows). subst d. split.
  - rewrite buildDependencyGraph_lookup. rewrite decide_True; [done|].
    unfold task_ids. rewrite list_elem_of_In. apply in_map.
    by rewrite <- list_elem_of_In.
  - apply elem_of_dependents_of. by exists t.
Qed.

Lemma X8_conflicts_follow_graph_edges_witness :
  exists dependents,
    buildDependencyGraph (dependent_tasks 10) !! 1 = Some dependents /\
    2 ∈ dependents.
Proof.
  apply (X8_conflicts_follow_graph_edges (dependent_tasks 10)
           {| conflict_task :=
                example_task 2 (Some 2) (Some (Jan 10)) (Some (Jan 25)) (Some [1]);
              dependency :=
                example_task 1 (Some 1) (Some (Jan 1)) (Some (Jan 15)) None;
              daysConflict := 5 |}).
  vm_compute. apply list_elem_of_here.
Defined.

(** X9.  No task is both the subject of a missing-dependency finding and
    the task of a schedule conflict: the first needs an empty dependency
    set, the second a declared dependency. *)
Theorem X9_missing_and_conflict_exclude tasks tasks' taskMap f c :
  f ∈ detectMissingDependencies tasks ->
  c ∈ detectScheduleConflicts tasks' taskMap ->
  issue_task f <> conflict_task c.
Proof.
  intros (i & Hf)%elem_of_scan_sorted Hc.
  apply check_task_spec in Hf as (cur & s & _ & _ & Hnodeps & _ & ->).
  apply elem_of_detectScheduleConflicts in Hc
    as (t & d & dep & s' & e & _ & Hd & _ & _ & _ & _ & ->).
  simpl. intros ->.
  apply dependency_ids_hasDependencies in Hd. congruence.
Qed.

Lemma X9_missing_and_conflict_exclude_witness :
  example_task 3 (Some 3) (Some (Jan 10)) (Some (Jan 12)) (Some []) <>
  example_task 2 (Some 2) (Some (Jan 10)) (Some (Jan 25)) (Some [1]).
Proof.
  apply (X9_missing_and_conflict_exclude window_tasks (dependent_tasks 10)
           (buildTaskMap (dependent_tasks 10))
           {| issue_task :=
                example_task 3 (Some 3) (Some (Jan 10)) (Some (Jan 12)) (Some []);
              potentialDependencies :=
                [ {| candidate_task :=
                       example_task 1 (Some 1) (Some (Jan 2)) (Some (Jan 6)) None;
                     daysBetween := 4 |} ] |}
           {| conflict_task :=
                example_task 2 (Some 2) (Some (Jan 10)) (Some (Jan 25)) (Some [1]);
              dependency :=
                example_task 1 (Some 1) (Some (Jan 1)) (Some (Jan 15)) None;
              daysConflict := 5 |}).
  - vm_compute. apply list_elem_of_here.
  - vm_compute. apply list_elem_of_here.
Defined.

(** ** The sort of the inferrer, continued *)

Lemma query_ordered_snoc l x :
  query_ordered (l ++ [x]) ->
  query_ordered l /\ forall y, y ∈ l -> 0 <= compare_start x y.
Proof.
  unfold query_ordered. induction l as [|a l IH]; simpl.
  - intros _. split; [constructor|]. intros y Hy. by apply elem_of_nil in Hy.
  - intros Hs. apply StronglySorted_inv in Hs as [Hs Ha].
    destruct (IH Hs) as [Hl Hx]. apply Forall_app in Ha as [Hal Hax].
    split; [by constructor|].
    intros y [->|Hy]%elem_of_cons; [|by apply Hx].
    rewrite Forall_singleton in Hax. exact Hax.
Qed.

Lemma array_sort_ordered l :
  query_ordered l -> array_sort compare_start l = l.
Proof.
  induction l as [|x l IH] using rev_ind; [done|].
  intros [Hl Hx]%query_ordered_snoc.
  rewrite array_sort_snoc, IH by done. by apply sort_insert_last.
Qed.

Lemma query_ordered_app dated_part undated_part :
  Forall (fun t => is_Some (planned_start_date t)) dated_part ->
  StronglySorted starts_before dated_part ->
  Forall (fun t => planned_start_date t = None) undated_part ->
  query_ordered (dated_part ++ undated_part).
Proof.
  intros Hd Hs Hu. unfold query_ordered.
  induction Hs as [|a l Hs IH Ha]; simpl.
  - clear Hd. induction Hu as [|u l Hu Hl IH]; constructor; [done|].
    eapply Forall_impl; [exact Hl|]. intros b Hnone.
    unfold compare_start. rewrite Hnone. lia.
  - apply Forall_cons in Hd as [[sa Hsa] Hd]. constructor; [by apply IH|].
    apply Forall_app. split.
    + rewrite Forall_forall in Ha, Hd. apply Forall_forall. intros b Hb.
      destruct (Hd b Hb) as [sb Hsb]. specialize (Ha b Hb).
      unfold starts_before, new_Date in Ha. rewrite Hsa, Hsb in Ha.
      unfold compare_start. rewrite Hsa, Hsb. simpl in Ha. lia.
    + eapply Forall_impl; [exact Hu|]. intros u Hnone.
      unfold compare_start. rewrite Hnone. lia.
Qed.

Lemma array_sort_query_ordered l : query_ordered (array_sort compare_start l).
Proof.
  rewrite array_sort_compare_start. apply query_ordered_app.
  - apply Forall_forall. intros t Ht. by apply array_sort_dated_elem with l.
  - apply array_sort_dated_sorted.
  - apply Forall_forall. intros t Ht.
    by apply list_elem_of_filter in Ht as [? _].
Qed.

(** X10.  The sort of the inferrer leaves rows that come in the order of
    the query (ascending planned start, rows without planned start last)
    as they are; its result is always in that order, so sorting twice is
    sorting once. *)
Theorem X10_sort_keeps_query_order rows :
  (query_ordered rows -> array_sort compare_start rows = rows)
  /\ query_ordered (array_sort compare_start rows)
  /\ array_sort compare_start (array_sort compare_start rows)
     = array_sort compare_start rows.
Proof.
  split_and!.
  - apply array_sort_ordered.
  - apply array_sort_query_ordered.
  - apply array_sort_ordered, array_sort_query_ordered.
Qed.

Lemma X10_sort_keeps_query_order_witness :
  array_sort compare_start apart_tasks = apart_tasks.
Proof.
  apply (proj1 (X10_sort_keeps_query_order apart_tasks)).
  unfold query_ordered. repeat constructor; vm_compute; discriminate.
Defined.

Lemma filter_none {A} (P : A -> Prop) `{!forall x, Decision (P x)} (l : list A) :
  Forall (fun x => ~ P x) l -> filter P l = [].
Proof.
  induction 1 as [|x l Hx _ IH]; [done|].
  by rewrite filter_cons, decide_False.
Qed.

Lemma sort_insert_filter start x l :
  Forall (fun t => is_Some (planned_start_date t)) (x :: l) ->
  StronglySorted starts_before l ->
  filter (fun t => planned_start_date t = start) (sort_insert compare_start x l)
  = filter (fun t => planned_start_date t = start) l
    ++ filter (fun t => planned_start_date t = start) [x].
Proof.
  intros Hd Hs. apply Forall_cons in Hd as [[sx Hsx] Hd].
  induction Hs as [|y l Hs IH Hy]; simpl; [done|].
  apply Forall_cons in Hd as [[sy Hsy] Hd].
  unfold compare_start at 1. rewrite Hsx, Hsy.
  destruct (Z.ltb_spec (sx - sy) 0) as [Hlt|Hge].
  - rewrite (filter_cons _ x (y :: l)), (filter_cons _ x []), filter_nil.
    case_decide as Hx; [|by rewrite app_nil_r].
    rewrite (filter_none _ (y :: l)); [done|].
    constructor.
    + rewrite Hsy, <- Hx, Hsx. intros [= <-]. lia.
    + rewrite Forall_forall in Hy, Hd. apply Forall_forall. intros b Hb.
      destruct (Hd b Hb) as [sb Hsb]. specialize (Hy b Hb).
      unfold starts_before, new_Date in Hy. rewrite Hsy, Hsb in Hy.
      simpl in Hy. rewrite Hsb, <- Hx, Hsx. intros [= <-]. lia.
  - rewrite (filter_cons _ y), (filter_cons _ y l), (IH Hd).
    by case_decide.
Qed.

Lemma array_sort_dated_filter start l :
  filter (fun t => planned_start_date t = start)
         (array_sort compare_start (dated l))
  = filter (fun t => planned_start_date t = start) (dated l).
Proof.
  induction l as [|x l IH] using rev_ind; [done|].
  rewrite dated_snoc. case_decide as Hx; [|by rewrite app_nil_r].
  rewrite array_sort_snoc, sort_insert_filter, filter_app, IH; [done| |].
  - constructor; [done|].
    apply Forall_forall. intros t Ht. by apply array_sort_dated_elem with l.
  - apply array_sort_dated_sorted.
Qed.

Lemma filter_filter_impl {A} (P Q : A -> Prop)
    `{!forall x, Decision (P x)} `{!forall x, Decision (Q x)} (l : list A) :
  (forall x, P x -> Q x) -> filter P (filter Q l) = filter P l.
Proof.
  intros Himpl. induction l as [|x l IH]; [done|].
  rewrite (filter_cons Q x l), (filter_cons P x l).
  destruct (decide (Q x)) as [HQ|HQ].
  - rewrite (filter_cons P x (filter Q l)), IH. done.
  - rewrite IH. rewrite decide_False; [done|]. intros HP. by apply HQ, Himpl.
Qed.

Lemma filter_start_partition start l :
  filter (fun t => planned_start_date t = start) (dated l)
  ++ filter (fun t => planned_start_date t = start) (undated l)
  = filter (fun t => planned_start_date t = start) l.
Proof.
  destruct start as [s|].
  - rewrite (filter_none _ (undated l)).
    + rewrite app_nil_r. unfold dated. apply filter_filter_impl.
      intros t Ht. by rewrite Ht.
    + apply Forall_forall. intros t Ht.
      apply list_elem_of_filter in Ht as [Ht _]. by rewrite Ht.
  - rewrite (filter_none _ (dated l)).
    + simpl. unfold undated. by apply filter_filter_impl.
    + apply Forall_forall. intros t Ht.
      apply list_elem_of_filter in Ht as [[s Ht] _]. by rewrite Ht.
Qed.

(** X11.  The sort of the inferrer is stable: the tasks planned to start
    at the same time, and likewise the tasks without planned start, come
    out in the order in which they were given. *)
Theorem X11_sort_is_stable rows start :
  filter (fun t => planned_start_date t = start)
         (array_sort compare_start rows)
  = filter (fun t => planned_start_date t = start) rows.
Proof.
  rewrite array_sort_compare_start, filter_app, array_sort_dated_filter.
  apply filter_start_partition.
Qed.

Lemma tied_tasks_sorted :
  map task_id (array_sort compare_start tied_tasks) = [2; 1; 3].
Proof. reflexivity. Qed.

(** ** Missing-dependency findings *)

Lemma check_task_first sorted : check_task sorted 0 = [].
Proof.
  unfold check_task, find_previous.
  destruct (sorted !! 0%nat) as [cur|]; [|done].
  by destruct (planned_start_date cur).
Qed.

Lemma check_task_subject sorted i f :
  f ∈ check_task sorted i -> check_task sorted i = [f] /\ sorted !! i = Some (issue_task f).
Proof.
  intros Hf. pose proof Hf as Hspec.
  apply check_task_spec in Hspec as (cur & s & Hi & Hs & Hno & Hne & ->).
  split; [|done]. unfold check_task. rewrite Hi, Hs, Hno.
  by destruct (find_previous sorted i cur s).
Qed.

Lemma check_task_cases sorted i :
  check_task sorted i = [] \/
  exists f, check_task sorted i = [f] /\ sorted !! i = Some (issue_task f).
Proof.
  destruct (check_task sorted i) as [|f fs] eqn:Hc; [by left|].
  right. exists f.
  destruct (check_task_subject sorted i f) as [Hone Hi];
    [rewrite Hc; apply list_elem_of_here|].
  split; [congruence|done].
Qed.

Lemma subjects_sublist sorted n k :
  map issue_task (flat_map (check_task sorted) (seq k n))
    `sublist_of` take n (drop k sorted).
Proof.
  revert k. induction n as [|n IH]; intros k; simpl; [constructor|].
  rewrite map_app.
  destruct (sorted !! k) as [x|] eqn:Hk.
  - rewrite (drop_S sorted x k Hk). simpl.
    destruct (check_task_cases sorted k) as [->|(f & -> & Hf)]; simpl.
    + apply sublist_cons, IH.
    + assert (issue_task f = x) as -> by congruence.
      apply sublist_skip, IH.
  - assert (check_task sorted k = []) as ->
      by (unfold check_task; by rewrite Hk).
    simpl. specialize (IH (S k)).
    rewrite drop_ge in IH |- * by (apply lookup_ge_None in Hk; lia).
    by rewrite take_nil in IH |- *.
Qed.

(** X12.  The findings come in the chronological order of their subjects,
    at most one per task: their subjects form a subsequence of the sorted
    list without its first task, which has no earlier task and is never a
    subject.  There are thus fewer findings than tasks. *)
Theorem X12_findings_follow_the_sorted_list tasks :
  map issue_task (detectMissingDependencies tasks)
    `sublist_of` tail (array_sort compare_start tasks)
  /\ (length (detectMissingDependencies tasks) <= pred (length tasks))%nat.
Proof.
  assert (map issue_task (detectMissingDependencies tasks)
            `sublist_of` tail (array_sort compare_start tasks)) as Hsub.
  { unfold detectMissingDependencies, scan_sorted.
    set (sorted := array_sort compare_start tasks).
    destruct (length sorted) as [|n] eqn:Hlen; simpl; [apply sublist_nil_l|].
    rewrite check_task_first. simpl.
    pose proof (subjects_sublist sorted n 1) as Hs.
    rewrite take_ge in Hs by (rewrite length_drop; lia).
    by destruct sorted. }
  split; [done|].
  apply sublist_length in Hsub.
  rewrite length_map in Hsub.
  assert (length (tail (array_sort compare_start tasks)) = pred (length tasks))
    as Hlen.
  { rewrite <- (Permutation_length (array_sort_perm compare_start tasks)).
    by destruct (array_sort compare_start tasks). }
  lia.
Qed.

(** X13.  A candidate predecessor ends at most 5 days before its subject
    starts and less than one day after: the rounding up admits a
    predecessor that ends within the day that follows the start.  When the
    two dates are a whole number of days apart, as calendar dates of one
    time offset are, the predecessor ends no later than the subject starts
    and the day count is their exact distance. *)
Theorem X13_candidate_window tasks f c :
  f ∈ detectMissingDependencies tasks ->
  c ∈ potentialDependencies f ->
  exists s e,
    planned_start_date (issue_task f) = Some s /\
    planned_end_date (candidate_task c) = Some e /\
    s - 5 * MS_PER_DAY <= e < s + MS_PER_DAY /\
    ((MS_PER_DAY | s - e) ->
     e <= s /\ daysBetween c * MS_PER_DAY = s - e).
Proof.
  intros (i & Hf)%elem_of_scan_sorted Hc.
  apply check_task_spec in Hf as (cur & s & _ & Hs & _ & _ & ->).
  simpl in Hc.
  apply elem_of_find_previous in Hc
    as (j & prev & e & _ & _ & He & Hd & _ & ->).
  exists s, e. simpl.
  pose proof (ceil_days_spec (s - e)) as Hc. pose proof MS_PER_DAY_pos as Hpos.
  split_and!; try done; try nia.
  intros [q Hq]. rewrite Hq in *.
  assert (ceil_days (q * MS_PER_DAY) = q) as Hceil by nia.
  rewrite Hceil in *. split; nia.
Qed.

Lemma X13_candidate_window_witness :
  exists s e,
    Some (Jan 10) = Some s /\ Some (Jan 6) = Some e /\
    s - 5 * MS_PER_DAY <= e < s + MS_PER_DAY /\
    ((MS_PER_DAY | s - e) -> e <= s /\ 4 * MS_PER_DAY = s - e).
Proof.
  apply (X13_candidate_window window_tasks
    {| issue_task :=
         example_task 3 (Some 3) (Some (Jan 10)) (Some (Jan 12)) (Some []);
       potentialDependencies :=
         [ {| candidate_task :=
                example_task 1 (Some 1) (Some (Jan 2)) (Some (Jan 6)) None;
              daysBetween := 4 |} ] |}
    {| candidate_task :=
         example_task 1 (Some 1) (Some (Jan 2)) (Some (Jan 6)) None;
       daysBetween := 4 |}).
  - vm_compute. apply list_elem_of_here.
  - simpl. apply list_elem_of_here.
Defined.

(** ** Groups of the report *)

Lemma group_of_snoc fmt rows t label :
  group_of fmt (rows ++ [t]) label =
  if decide (trade_label t = label)
  then Some (default [] (group_of fmt rows label) ++ [display fmt t])
  else group_of fmt rows label.
Proof.
  unfold group_of. rewrite filter_app, filter_cons, filter_nil.
  case_decide as Ht.
  - destruct (filter _ rows) as [|u us]; simpl; [done|].
    by rewrite map_app.
  - by rewrite app_nil_r.
Qed.

(** A turn of the grouping loop that does not throw files the display of
    the task last in the group of its label, and keeps the other groups. *)
Lemma group_display_Normal fmt groups t groups' :
  group_display fmt groups t = Normal groups' ->
  groups' =
    <[trade_label t := default [] (groups !! trade_label t) ++ [display fmt t]]>
      groups.
Proof.
  unfold group_display. cbv zeta. fold (trade_label t).
  destruct (groups !! trade_label t) as [displays|]; simpl.
  - by intros [= <-].
  - case_bool_decide; [done|]. by intros [= <-].
Qed.

Lemma forEach_acc_group_of fmt rows : forall done_rows groups groups',
  (forall label, groups !! label = group_of fmt done_rows label) ->
  forEach_acc (group_display fmt) rows groups = Normal groups' ->
  forall label, groups' !! label = group_of fmt (done_rows ++ rows) label.
Proof.
  induction rows as [|t rows IH]; intros done_rows groups groups' Hinv; simpl.
  - intros [= <-] label. by rewrite app_nil_r.
  - unfold mbind, completion_bind.
    destruct (group_display fmt groups t) as [groups1|e] eqn:Hstep; [|done].
    intros Hrest label.
    replace (done_rows ++ t :: rows) with ((done_rows ++ [t]) ++ rows)
      by (by rewrite <- app_assoc).
    apply (IH (done_rows ++ [t]) groups1 groups'); [|done].
    intros label'. apply group_display_Normal in Hstep as ->.
    rewrite group_of_snoc, lookup_insert, !Hinv.
    case_decide; subst; done.
Qed.

(** X14.  In a report that the assembler returns, the group under a label
    lists the displays of exactly the rows of that label, in the order of
    the rows (the rows without trade name, or with an empty one, under
    [Sans corps de métier]); a label of no row has no group. *)
Theorem X14_report_groups fmt w projectId r :
  generateCoordinationReport fmt w projectId = Normal (Some r) ->
  exists rows,
    select_project_tasks w projectId = Normal rows /\
    forall label, tasksByTrade r !! label = group_of fmt rows label.
Proof.
  intros Hr.
  apply generateCoordinationReport_Some in Hr
    as (name & others & rows & groups & _ & Hrows & Hgroups & ->).
  exists rows. split; [done|]. simpl.
  apply (forEach_acc_group_of fmt rows [] ∅ groups); [|done].
  intros label. by rewrite lookup_empty.
Qed.

Lemma X14_report_groups_witness :
  exists r,
    generateCoordinationReport (fun _ => "d") (one_project labelled_tasks) 1
      = Normal (Some r) /\
    exists rows,
      select_project_tasks (one_project labelled_tasks) 1 = Normal rows /\
      forall label,
        tasksByTrade r !! label = group_of (fun _ => "d") rows label.
Proof.
  eexists. split; [vm_compute; reflexivity|].
  apply (X14_report_groups (fun _ => "d") (one_project labelled_tasks) 1).
  vm_compute. reflexivity.
Defined.

Lemma labelled_tasks_groups :
  (map display_id <$> group_of (fun _ => "d") labelled_tasks "Plomberie")
    = Some [1; 3] /\
  (map display_id <$>
     group_of (fun _ => "d") labelled_tasks "Sans corps de métier")
    = Some [2].
Proof. split_and!; reflexivity. Qed.

(** A turn of the grouping loop throws exactly on a label that the
    grouping object inherits, and otherwise files under that label only. *)
Lemma group_display_inherited_keys fmt groups t :
  (forall k, k ∈ Object_prototype_keys -> groups !! k = None) ->
  ((trade_label t ∈ Object_prototype_keys) /\
   exists e, group_display fmt groups t = Throw e) \/
  ((trade_label t ∉ Object_prototype_keys) /\
   exists groups',
     group_display fmt groups t = Normal groups' /\
     forall k, k ∈ Object_prototype_keys -> groups' !! k = None).
Proof.
  intros Hinv. unfold group_display. cbv zeta. fold (trade_label t).
  destruct (decide (trade_label t ∈ Object_prototype_keys)) as [Hin|Hnot].
  - left. split; [done|]. rewrite (Hinv _ Hin).
    rewrite bool_decide_eq_true_2 by done. eauto.
  - right. split; [done|].
    destruct (groups !! trade_label t) as [displays|] eqn:Hget.
    + eexists. split; [reflexivity|]. intros k Hk.
      rewrite lookup_insert_ne; [by apply Hinv|]. by intros <-.
    + rewrite bool_decide_eq_false_2 by done.
      eexists. split; [reflexivity|]. intros k Hk.
      rewrite lookup_insert_ne; [by apply Hinv|]. by intros <-.
Qed.

Lemma forEach_acc_Normal_iff fmt rows : forall groups,
  (forall k, k ∈ Object_prototype_keys -> groups !! k = None) ->
  (exists groups', forEach_acc (group_display fmt) rows groups = Normal groups')
  <-> Forall (fun t => trade_label t ∉ Object_prototype_keys) rows.
Proof.
  induction rows as [|t rows IH]; intros groups Hinv; simpl.
  - split; [constructor|eauto].
  - unfold mbind, completion_bind. rewrite Forall_cons.
    destruct (group_display_inherited_keys fmt groups t Hinv)
      as [[Hin [e ->]]|[Hnot (groups1 & -> & Hinv1)]].
    + split; [by intros [? ?]|]. by intros [? _].
    + rewrite (IH groups1 Hinv1). tauto.
Qed.

(** X15.  For a project that resolves and whose task query answers, the
    assembler returns a report exactly when no row is labelled by a
    property name that every object inherits ([constructor], [toString],
    [__proto__], ...), and [null] exactly when some row is: one such trade
    name makes the whole report unavailable. *)
Theorem X15_report_null_iff_inherited_label fmt w projectId name others rows :
  select_project_name w projectId = Normal (name :: others) ->
  select_project_tasks w projectId = Normal rows ->
  ((exists r, generateCoordinationReport fmt w projectId = Normal (Some r))
   <-> Forall (fun t => trade_label t ∉ Object_prototype_keys) rows)
  /\ (generateCoordinationReport fmt w projectId = Normal None
      <-> Exists (fun t => trade_label t ∈ Object_prototype_keys) rows).
Proof.
  intros Hname Hrows.
  pose proof (forEach_acc_Normal_iff fmt rows ∅
                (fun k _ => lookup_empty k)) as Hloop.
  unfold generateCoordinationReport, assemble_report, try_catch.
  rewrite Hname, Hrows. simpl. unfold mbind, completion_bind.
  destruct (forEach_acc (group_display fmt) rows ∅) as [groups|e] eqn:Hrun.
  - assert (Forall (fun t => trade_label t ∉ Object_prototype_keys) rows)
      as Hall by (apply Hloop; eauto).
    split.
    + split; [done|]. intros _. eexists. reflexivity.
    + split; [done|]. intros Hex. exfalso.
      apply Exists_exists in Hex as (t & Ht & Hin).
      rewrite Forall_forall in Hall. by apply (Hall t Ht).
  - assert (~ Forall (fun t => trade_label t ∉ Object_prototype_keys) rows)
      as Hnot.
    { intros Hall. apply Hloop in Hall as [groups Hgroups]. congruence. }
    split.
    + split; [by intros [? ?]|done].
    + split; [|done]. intros _.
      apply not_Forall_Exists in Hnot; [|intros t; apply _].
      eapply Exists_impl; [exact Hnot|]. intros t Ht.
      by apply dec_stable.
Qed.

Lemma X15_report_null_iff_inherited_label_witness :
  generateCoordinationReport (fun _ => "d") (one_project [constructor_task]) 1
    = Normal None.
Proof.
  apply (proj2 (X15_report_null_iff_inherited_label (fun _ => "d")
                  (one_project [constructor_task]) 1 "Chantier" []
                  [constructor_task] eq_refl eq_refl)).
  apply Exists_cons_hd. vm_compute. apply list_elem_of_here.
Defined.

(** ** The route of the report *)

(** X16.  The route of the coordination report answers 200 with the
    report when the assembler returns one and 404 when it returns [null];
    as the assembler turns every error into [null], the route never
    answers 500: a rejected query is reported as 404, like an unknown
    project. *)
Theorem X16_report_route_never_500 fmt w projectId :
  http_status (coordination_report_route fmt w projectId) <> 500
  /\ (http_status (coordination_report_route fmt w projectId) = 404
      <-> generateCoordinationReport fmt w projectId = Normal None)
  /\ (forall r,
        coordination_report_route fmt w projectId
          = {| http_status := 200; json := SuccessBody r |}
        <-> generateCoordinationReport fmt w projectId = Normal (Some r))
  /\ (forall e,
        select_project_name w projectId = Throw e ->
        http_status (coordination_report_route fmt w projectId) = 404).
Proof.
  unfold coordination_report_route.
  pose proof (generateCoordinationReport_catch fmt w projectId) as Hcatch.
  assert (forall e, generateCoordinationReport fmt w projectId <> Throw e)
    as Hnothrow.
  { intros e. unfold generateCoordinationReport, try_catch.
    by destruct (assemble_report fmt w projectId). }
  split_and!.
  - destruct (generateCoordinationReport fmt w projectId) as [[r|]|e] eqn:Hg;
      simpl; [done|done|]. by destruct (Hnothrow e).
  - destruct (generateCoordinationReport fmt w projectId) as [[r|]|e] eqn:Hg;
      simpl; split; try done.
  - intros r.
    destruct (generateCoordinationReport fmt w projectId) as [[r'|]|e] eqn:Hg;
      simpl; split; try done.
    + by intros [= ->].
    + by intros [= ->].
  - intros e He. rewrite (Hcatch e); [done|].
    unfold assemble_report. by rewrite He.
Qed.

Lemma X16_report_route_never_500_witness :
  http_status (coordination_report_route (fun _ => "d") store_down 1) = 404.
Proof.
  apply (proj2 (proj2 (proj2 (X16_report_route_never_500
                                (fun _ => "d") store_down 1)))
           (QueryError "connection refused")).
  reflexivity.
Defined.

(** ** The analysis runs *)

Lemma say_all_completes {A} (line : A -> log_line) (l : list A) :
  for_each_logged (fun x => say (line x)) l = (map line l, Normal tt).
Proof.
  induction l as [|x l IH]; [done|].
  simpl. unfold mbind, logged_bind. simpl. by rewrite IH.
Qed.

Lemma detectTradeOverlaps_logged_completes tasks :
  (detectTradeOverlaps_logged tasks).2 = Normal tt.
Proof.
  unfold detectTradeOverlaps_logged.
  destruct (detectTradeOverlaps tasks) as [|o found]; [done|].
  unfold mbind, logged_bind. simpl. by rewrite say_all_completes.
Qed.

Lemma detectMissingDependencies_logged_completes tasks :
  (detectMissingDependencies_logged tasks).2 = Normal tt.
Proof.
  unfold detectMissingDependencies_logged.
  destruct (detectMissingDependencies tasks) as [|o found]; [done|].
  unfold mbind, logged_bind. simpl. by rewrite say_all_completes.
Qed.

Lemma detectScheduleConflicts_logged_completes tasks taskMap :
  (detectScheduleConflicts_logged tasks taskMap).2 = Normal tt.
Proof.
  unfold detectScheduleConflicts_logged.
  destruct (detectScheduleConflicts tasks taskMap) as [|o found]; [done|].
  unfold mbind, logged_bind. simpl. by rewrite say_all_completes.
Qed.

Lemma logged_seq_completes (m1 m2 : logged unit) :
  m1.2 = Normal tt -> m2.2 = Normal tt -> (m1;; m2).2 = Normal tt.
Proof.
  destruct m1 as [w1 c1], m2 as [w2 c2]. simpl. intros -> ->. done.
Qed.

Lemma logged_seq (m1 m2 : logged unit) :
  m1.2 = Normal tt -> (m1;; m2) = (m1.1 ++ m2.1, m2.2).
Proof.
  destruct m1 as [w1 c1], m2 as [w2 c2]. simpl. intros ->. done.
Qed.

Lemma await_Normal {A} (a : A) (k : A -> logged unit) :
  (await (Normal a) ≫= k) = k a.
Proof. unfold await, mbind, logged_bind. by destruct (k a). Qed.

Lemma await_Throw {A} (e : error) (k : A -> logged unit) :
  (await (Throw e) ≫= k) = ([], Throw e).
Proof. reflexivity. Qed.

Lemma try_logged_completes (m : logged unit) handler :
  m.2 = Normal tt -> try_logged m handler = m.
Proof. destruct m as [written c]. simpl. by intros ->. Qed.

(** The analysis of the rows of a project, once they are fetched. *)
Lemma analysis_body_completes rows name :
  (detectTradeOverlaps_logged rows;;
   detectMissingDependencies_logged rows;;
   detectScheduleConflicts_logged rows (buildTaskMap rows);;
   say (TasksAnalysisDone name)).2 = Normal tt.
Proof.
  apply logged_seq_completes;
    [apply detectTradeOverlaps_logged_completes|].
  apply logged_seq_completes;
    [apply detectMissingDependencies_logged_completes|].
  apply logged_seq_completes;
    [apply detectScheduleConflicts_logged_completes|done].
Qed.

(** An analysis of a project never completes by an error. *)
Lemma analyzeProjectTasks_logged_completes w projectId name :
  (analyzeProjectTasks_logged w projectId name).2 = Normal tt.
Proof.
  unfold analyzeProjectTasks_logged.
  apply logged_seq_completes; [done|].
  destruct (select_project_tasks w projectId) as [[|t rows]|e].
  - by rewrite await_Normal.
  - rewrite await_Normal. cbv zeta.
    rewrite try_logged_completes; apply analysis_body_completes.
  - by rewrite await_Throw.
Qed.

Lemma for_each_projects_log w projects :
  for_each_logged
    (fun project => analyzeProjectTasks_logged w project.1 project.2) projects
  = (flat_map (fun project =>
                 (analyzeProjectTasks_logged w project.1 project.2).1)
              projects,
     Normal tt).
Proof.
  induction projects as [|[projectId name] projects IH]; [done|].
  simpl. rewrite IH.
  pose proof (analyzeProjectTasks_logged_completes w projectId name) as Hc.
  destruct (analyzeProjectTasks_logged w projectId name) as [written c].
  simpl in *. by rewrite Hc.
Qed.

(** X17.  A run of [analyzeProjectSchedule] never ends by an error.  When
    the query for the active projects answers, every active project is
    analysed, in order, whatever happens to the others: the log is the
    opening line followed by the log of the analysis of each project; the
    analysis of a project whose task query is rejected logs the failure,
    that of a project without task logs that none was found, and the
    others end on the closing line.  When the query for the active
    projects is rejected, the failure is logged and nothing is analysed. *)
Theorem X17_schedule_analysis_isolates_failures active w :
  (analyzeProjectSchedule active w).2 = Normal tt
  /\ (forall projects,
        active = Normal projects ->
        (analyzeProjectSchedule active w).1 =
          ScheduleAnalysisStarts
          :: flat_map (fun project =>
                         (analyzeProjectTasks_logged w project.1 project.2).1)
                      projects)
  /\ (forall e,
        active = Throw e ->
        (analyzeProjectSchedule active w).1 =
          [ScheduleAnalysisStarts; ScheduleAnalysisFailed e])
  /\ (forall projectId name,
        (analyzeProjectTasks_logged w projectId name).2 = Normal tt /\
        match select_project_tasks w projectId with
        | Throw e =>
            (analyzeProjectTasks_logged w projectId name).1 =
              [TasksAnalysisStarts name projectId;
               TasksAnalysisFailed projectId e]
        | Normal [] =>
            (analyzeProjectTasks_logged w projectId name).1 =
              [TasksAnalysisStarts name projectId; NoTaskFound name]
        | Normal (_ :: _) =>
            exists findings,
              (analyzeProjectTasks_logged w projectId name).1 =
                TasksAnalysisStarts name projectId :: OverlapSearchStarts
                :: findings ++ [TasksAnalysisDone name]
        end).
Proof.
  split_and!.
  - unfold analyzeProjectSchedule, await, try_logged.
    destruct active as [projects|e]; [|done].
    unfold mbind at 2, logged_bind at 2.
    rewrite for_each_projects_log. done.
  - intros projects ->.
    unfold analyzeProjectSchedule, await, try_logged.
    unfold mbind at 2, logged_bind at 2.
    rewrite for_each_projects_log. done.
  - by intros e ->.
  - intros projectId name.
    split; [apply analyzeProjectTasks_logged_completes|].
    unfold analyzeProjectTasks_logged.
    destruct (select_project_tasks w projectId) as [[|t rows]|e].
    + by rewrite await_Normal.
    + rewrite await_Normal. cbv zeta.
      rewrite try_logged_completes by apply analysis_body_completes.
      assert (exists rest, (detectTradeOverlaps_logged (t :: rows)).1
                           = OverlapSearchStarts :: rest) as [rest Hrest].
      { unfold detectTradeOverlaps_logged.
        destruct (detectTradeOverlaps (t :: rows)); simpl; [eauto|].
        unfold mbind, logged_bind. simpl. rewrite say_all_completes. eauto. }
      rewrite (logged_seq (say _)) by done.
      rewrite (logged_seq (detectTradeOverlaps_logged (t :: rows)))
        by apply detectTradeOverlaps_logged_completes.
      rewrite (logged_seq (detectMissingDependencies_logged (t :: rows)))
        by apply detectMissingDependencies_logged_completes.
      rewrite (logged_seq (detectScheduleConflicts_logged (t :: rows) _))
        by apply detectScheduleConflicts_logged_completes.
      simpl. rewrite Hrest.
      exists (rest ++ (detectMissingDependencies_logged (t :: rows)).1
                   ++ (detectScheduleConflicts_logged (t :: rows)
                         (buildTaskMap (t :: rows))).1).
      simpl. by rewrite <- !app_assoc.
    + by rewrite await_Throw.
Qed.

Lemma X17_schedule_analysis_isolates_failures_witness :
  (analyzeProjectSchedule (Normal [(1, "A"); (2, "B"); (3, "C")])
     three_projects).1 =
    ScheduleAnalysisStarts
    :: flat_map (fun project =>
                   (analyzeProjectTasks_logged three_projects
                      project.1 project.2).1)
                [(1, "A"); (2, "B"); (3, "C")].
Proof.
  apply (proj1 (proj2 (X17_schedule_analysis_isolates_failures
                         (Normal [(1, "A"); (2, "B"); (3, "C")])
                         three_projects))).
  reflexivity.
Defined.

(** The log of the three projects of the example: the rejected query of
    the second does not keep the third from being analysed. *)
Lemma three_projects_log :
  (analyzeProjectSchedule (Normal [(1, "A"); (2, "B"); (3, "C")])
     three_projects).1 =
    [ ScheduleAnalysisStarts;
      TasksAnalysisStarts "A" 1;
      OverlapSearchStarts; NoOverlapDetected;
      MissingSearchStarts;
      IssuesDetected 1;
      MissingDependency
        {| issue_task :=
             example_task 2 (Some 2) (Some (Jan 5)) (Some (Jan 10)) None;
           potentialDependencies :=
             [ {| candidate_task :=
                    example_task 1 (Some 1) (Some (Jan 1)) (Some (Jan 4)) None;
                  daysBetween := 1 |} ] |};
      ConflictSearchStarts; NoConflictDetected;
      TasksAnalysisDone "A";
      TasksAnalysisStarts "B" 2;
      TasksAnalysisFailed 2 (QueryError "timeout");
      TasksAnalysisStarts "C" 3;
      NoTaskFound "C" ].
Proof. vm_compute. reflexivity. Qed.

(** ** The detectors in sequence *)

(** X18.  Run one after the other on the same array, as
    [analyzeProjectTasks] runs them, the three detectors do not disturb
    each other: each finds what it finds on the rows alone, the array of
    rows is unchanged at the end, and a second run on the resulting store
    finds the same again.  With the lookup built from the rows, this is
    the analysis of the rows. *)
Theorem X18_detectors_in_sequence (σ : store) (tasks : loc) (ts : list task)
    (taskMap : gmap Z task) :
  σ !! tasks = Some ts ->
  exists σ',
    analyzeProjectTasks_heap tasks taskMap σ =
      Some ({| overlaps := detectTradeOverlaps ts;
               potentialIssues := detectMissingDependencies ts;
               conflicts := detectScheduleConflicts ts taskMap |}, σ') /\
    σ' !! tasks = Some ts /\
    (forall a l, σ !! a = Some l -> σ' !! a = Some l) /\
    (exists σ'',
        analyzeProjectTasks_heap tasks taskMap σ' =
          Some ({| overlaps := detectTradeOverlaps ts;
                   potentialIssues := detectMissingDependencies ts;
                   conflicts := detectScheduleConflicts ts taskMap |}, σ'')) /\
    (ts <> [] -> taskMap = buildTaskMap ts ->
     Some {| overlaps := detectTradeOverlaps ts;
             potentialIssues := detectMissingDependencies ts;
             conflicts := detectScheduleConflicts ts taskMap |}
     = analyzeProjectTasks ts).
Proof.
  assert (forall σ0 : store,
             σ0 !! tasks = Some ts ->
             exists σ1,
               analyzeProjectTasks_heap tasks taskMap σ0 =
                 Some ({| overlaps := detectTradeOverlaps ts;
                          potentialIssues := detectMissingDependencies ts;
                          conflicts := detectScheduleConflicts ts taskMap |},
                       σ1) /\
               σ0 ⊆ σ1) as Hrun.
  { intros σ0 H0.
    destruct (detectTradeOverlaps_heap_run σ0 tasks ts H0) as (σ1 & Hr1 & Hs1).
    pose proof (lookup_weaken σ0 σ1 _ _ H0 Hs1) as H1.
    destruct (detectMissingDependencies_heap_run σ1 tasks ts H1)
      as (σ2 & Hr2 & Hs2).
    pose proof (lookup_weaken σ1 σ2 _ _ H1 Hs2) as H2.
    pose proof (detectScheduleConflicts_heap_run σ2 tasks ts taskMap H2) as Hr3.
    exists σ2. split; [|by transitivity σ1].
    unfold analyzeProjectTasks_heap, mbind, heapM_bind.
    by rewrite Hr1, Hr2, Hr3. }
  intros Hts. destruct (Hrun σ Hts) as (σ' & Hr & Hsub).
  pose proof (lookup_weaken σ σ' _ _ Hts Hsub) as Hts'.
  exists σ'. split_and!; [done|done| | |].
  - intros a l Ha. by apply (lookup_weaken σ σ').
  - destruct (Hrun σ' Hts') as (σ'' & Hr' & _). eauto.
  - intros Hne ->. by destruct ts.
Qed.

Lemma X18_detectors_in_sequence_witness :
  exists σ',
    analyzeProjectTasks_heap 1%positive ∅ boundary_store =
      Some ({| overlaps := detectTradeOverlaps boundary_tasks;
               potentialIssues := detectMissingDependencies boundary_tasks;
               conflicts := detectScheduleConflicts boundary_tasks ∅ |}, σ') /\
    σ' !! 1%positive = Some boundary_tasks /\
    (forall a l, boundary_store !! a = Some l -> σ' !! a = Some l) /\
    (exists σ'',
        analyzeProjectTasks_heap 1%positive ∅ σ' =
          Some ({| overlaps := detectTradeOverlaps boundary_tasks;
                   potentialIssues := detectMissingDependencies boundary_tasks;
                   conflicts := detectScheduleConflicts boundary_tasks ∅ |},
                σ'')) /\
    (boundary_tasks <> [] -> ∅ = buildTaskMap boundary_tasks ->
     Some {| overlaps := detectTradeOverlaps boundary_tasks;
             potentialIssues := detectMissingDependencies boundary_tasks;
             conflicts := detectScheduleConflicts boundary_tasks ∅ |}
     = analyzeProjectTasks boundary_tasks).
Proof.
  apply (X18_detectors_in_sequence boundary_store 1%positive boundary_tasks ∅).
  reflexivity.
Defined.

(** ** Order of candidates and of the tasks of a finding *)

Lemma check_previous_cases cur s prev :
  check_previous cur s prev = [] \/
  exists c, check_previous cur s prev = [c] /\ candidate_task c = prev.
Proof.
  unfold check_previous. destruct (planned_end_date prev) as [e|]; [|by left].
  cbv zeta.
  destruct ((ceil_days (s - e) >=? 0) && (ceil_days (s - e) <=? 5)
            && not_declared cur prev); [right|by left].
  eexists. split; [reflexivity|done].
Qed.

Lemma candidates_sublist cur s earlier :
  map candidate_task (flat_map (check_previous cur s) earlier)
    `sublist_of` earlier.
Proof.
  induction earlier as [|prev earlier IH]; simpl; [constructor|].
  rewrite map_app.
  destruct (check_previous_cases cur s prev) as [->|(c & -> & <-)]; simpl.
  - by apply sublist_cons.
  - by apply sublist_skip.
Qed.

(** X19.  The candidates of a finding are listed in chronological order,
    at most once per earlier task: they form a subsequence of the tasks
    sorted before the subject. *)
Theorem X19_candidates_follow_the_sorted_list tasks f :
  f ∈ detectMissingDependencies tasks ->
  exists i,
    array_sort compare_start tasks !! i = Some (issue_task f) /\
    map candidate_task (potentialDependencies f)
      `sublist_of` take i (array_sort compare_start tasks) /\
    (length (potentialDependencies f) <= i)%nat.
Proof.
  intros (i & Hf)%elem_of_scan_sorted.
  apply check_task_spec in Hf as (cur & s & Hi & _ & _ & _ & ->).
  exists i. simpl. split; [done|].
  pose proof (candidates_sublist cur s
                (take i (array_sort compare_start tasks))) as Hsub.
  split; [done|].
  apply sublist_length in Hsub.
  rewrite length_map, length_take in Hsub. unfold find_previous. lia.
Qed.

Lemma X19_candidates_follow_the_sorted_list_witness :
  exists i,
    array_sort compare_start window_tasks !! i =
      Some (issue_task window_finding)
    /\ map candidate_task (potentialDependencies window_finding)
         `sublist_of` take i (array_sort compare_start window_tasks)
    /\ (length (potentialDependencies window_finding) <= i)%nat.
Proof.
  apply (X19_candidates_follow_the_sorted_list window_tasks window_finding).
  vm_compute. apply list_elem_of_here.
Defined.

Lemma met_before_snoc tasks t ki kj :
  met_before tasks ki kj -> met_before (tasks ++ [t]) ki kj.
Proof.
  intros (i & u & Hi & Hu & Hk & Hall).
  exists i, u. split_and!; try done.
  - by apply lookup_app_l_Some.
  - intros j v Hj Hv Hkv.
    apply lookup_app_Some in Hj as [Hj|[Hlen Hj]].
    + by apply (Hall j v).
    + apply lookup_lt_Some in Hi. lia.
Qed.

Lemma key_has_member tasks k :
  k ∈ map fst (groupByTrade tasks) ->
  exists i u,
    tasks !! i = Some u /\ has_trade_and_range u = true /\ trade_key u = k.
Proof.
  rewrite group_get_is_Some, group_get_groupByTrade.
  destruct (members k tasks) as [|u us] eqn:Hm; [by intros [? ?]|]. intros _.
  assert (u ∈ members k tasks) as Hu by (rewrite Hm; apply list_elem_of_here).
  apply list_elem_of_filter in Hu as [[Hu Hk] Hin].
  apply list_elem_of_lookup_1 in Hin as [i Hi]. by exists i, u.
Qed.

Lemma member_has_key tasks v :
  v ∈ tasks -> has_trade_and_range v = true ->
  trade_key v ∈ map fst (groupByTrade tasks).
Proof.
  intros Hin Hv. by apply (groupByTrade_members (trade_key v) tasks v).
Qed.

(** The keys of [tasksByTrade] are in the order in which the trades are
    met in the rows. *)
Lemma groupByTrade_keys_order tasks : forall l1 ki l2 kj l3,
  map fst (groupByTrade tasks) = l1 ++ ki :: l2 ++ kj :: l3 ->
  met_before tasks ki kj.
Proof.
  induction tasks as [|t tasks IH] using rev_ind; intros l1 ki l2 kj l3 Hkeys.
  - by destruct l1.
  - rewrite groupByTrade_snoc in Hkeys. unfold group_step in Hkeys.
    destruct (has_trade_and_range t) eqn:Ht;
      [|by apply met_before_snoc, (IH l1 ki l2 kj l3)].
    rewrite group_push_keys in Hkeys.
    destruct (group_get (trade_key t) (groupByTrade tasks)) eqn:Hget;
      [by apply met_before_snoc, (IH l1 ki l2 kj l3)|].
    destruct l3 as [|k l3 _] using rev_ind.
    + replace (l1 ++ ki :: l2 ++ [kj]) with ((l1 ++ ki :: l2) ++ [kj]) in Hkeys
        by (by rewrite <- app_assoc).
      apply app_inj_tail in Hkeys as [Hkeys <-].
      destruct (key_has_member tasks ki) as (i & u & Hi & Hu & Hk).
      { rewrite Hkeys. apply elem_of_app. right. apply list_elem_of_here. }
      exists i, u. split_and!; try done.
      * by apply lookup_app_l_Some.
      * intros j v Hj Hv Hkv.
        apply lookup_app_Some in Hj as [Hj|[Hlen Hj]].
        -- exfalso. apply list_elem_of_lookup_2 in Hj.
           pose proof (member_has_key tasks v Hj Hv) as Hkey.
           rewrite Hkv in Hkey. apply group_get_is_Some in Hkey.
           rewrite Hget in Hkey. by destruct Hkey.
        -- apply lookup_lt_Some in Hi. lia.
    + replace (l1 ++ ki :: l2 ++ kj :: l3 ++ [k])
        with ((l1 ++ ki :: l2 ++ kj :: l3) ++ [k]) in Hkeys
        by (repeat (rewrite <- app_assoc; simpl); done).
      apply app_inj_tail in Hkeys as [Hkeys _].
      by apply met_before_snoc, (IH l1 ki l2 kj l3).
Qed.

(** X20.  The two tasks of a finding are ordered by their trades: the
    trade of [task1] is the one met first in the rows, a grouped task of
    it coming before every grouped task of the trade of [task2]. *)
Theorem X20_overlap_task1_is_of_the_trade_met_first tasks o :
  o ∈ detectTradeOverlaps tasks ->
  met_before tasks (trade_key (task1 o)) (trade_key (task2 o)).
Proof.
  unfold detectTradeOverlaps. cbv zeta.
  intros (l1 & ki & l2 & kj & l3 & Hkeys & Ho)%elem_of_compare_trades.
  apply elem_of_compare_groups in Ho as (t1 & t2 & H1 & H2 & Ho).
  apply group_get_elem in H1 as (_ & _ & <-), H2 as (_ & _ & <-).
  apply elem_of_compare_ranges in Ho as (_ & _ & ->). simpl.
  by apply (groupByTrade_keys_order tasks l1 _ l2 _ l3).
Qed.

Lemma X20_overlap_task1_is_of_the_trade_met_first_witness :
  met_before (reverse boundary_tasks) 2 1.
Proof.
  apply (X20_overlap_task1_is_of_the_trade_met_first (reverse boundary_tasks)
           {| task1 := example_task 2 (Some 2) (Some (Jan 5)) (Some (Jan 10)) None;
              task2 := example_task 1 (Some 1) (Some (Jan 1)) (Some (Jan 5)) None;
              startOverlap := Jan 5;
              endOverlap := Jan 5 |}).
  vm_compute. apply list_elem_of_here.
Defined.

(** ** The candidates of a task, in terms of the collection *)

Lemma StronglySorted_lookup_lt {A} (R : A -> A -> Prop) (l : list A) :
  StronglySorted R l ->
  forall i j a b,
    (j < i)%nat -> l !! j = Some a -> l !! i = Some b -> R a b.
Proof.
  induction 1 as [|x l Hs IH Hx]; intros i j a b Hlt Hj Hi.
  - by rewrite lookup_nil in Hj.
  - destruct i as [|i]; [lia|]. simpl in Hi.
    destruct j as [|j]; simpl in Hj.
    + injection Hj as <-. rewrite Forall_forall in Hx.
      by apply Hx, list_elem_of_lookup_2 with i.
    + apply (IH i j); [lia|done|done].
Qed.

(** In the sorted list, a task placed before a task that has a planned
    start has one too, and starts no later. *)
Lemma array_sort_earlier_starts tasks i j a b s :
  (j < i)%nat ->
  array_sort compare_start tasks !! j = Some a ->
  array_sort compare_start tasks !! i = Some b ->
  planned_start_date b = Some s ->
  exists sa, planned_start_date a = Some sa /\ sa <= s.
Proof.
  intros Hlt Hj Hi Hs.
  pose proof (StronglySorted_lookup_lt _ _ (array_sort_query_ordered tasks)
                i j a b Hlt Hj Hi) as Hab.
  simpl in Hab. unfold compare_start in Hab. rewrite Hs in Hab.
  destruct (planned_start_date a) as [sa|]; [|lia].
  exists sa. split; [done|lia].
Qed.

(** A task of the collection that starts strictly before the task at
    index [i] of the sorted list is at an earlier index. *)
Lemma array_sort_strictly_earlier tasks i cur s prev sp :
  array_sort compare_start tasks !! i = Some cur ->
  planned_start_date cur = Some s ->
  prev ∈ tasks -> planned_start_date prev = Some sp -> sp < s ->
  exists j, (j < i)%nat /\ array_sort compare_start tasks !! j = Some prev.
Proof.
  intros Hi Hs Hin Hsp Hlt.
  rewrite <- (array_sort_perm compare_start tasks) in Hin.
  apply list_elem_of_lookup_1 in Hin as [j Hj].
  exists j. split; [|done].
  destruct (Nat.lt_trichotomy j i) as [Hji|[->|Hij]]; [done| |].
  - rewrite Hi in Hj. injection Hj as ->. rewrite Hs in Hsp.
    injection Hsp as ->. lia.
  - destruct (array_sort_earlier_starts tasks j i cur prev sp Hij Hi Hj Hsp)
      as (s' & Hs' & Hle).
    rewrite Hs in Hs'. injection Hs' as <-. lia.
Qed.

(** Tasks with the same planned start, and tasks without one, keep the
    order in which they were given. *)
Lemma array_sort_keeps_ties tasks start :
  filter (fun t => planned_start_date t = start)
         (array_sort compare_start tasks)
  = filter (fun t => planned_start_date t = start) tasks.
Proof.
  rewrite array_sort_compare_start, filter_app, array_sort_dated_filter.
  apply filter_start_partition.
Qed.

(** C4.  The inferrer scans the tasks in chronological order: the sorted
    list holds the tasks of the collection, a task placed before a task
    that has a planned start has one too and starts no later, and tasks
    with the same planned start keep the order in which they were given.
    For the task at index [i] of that list, with a planned start [s] and an
    empty declared-dependency set: every task of the collection that
    starts strictly before [s] is at an earlier index, and is included
    among the candidates if and only if it has a planned end [e], the day
    count [ceil ((s - e) / 1 day)] lies between 0 and [lookbackDays], here
    its default 5, and it is not declared as a dependency; a task without
    planned start, or that starts after [s], is never a candidate; the
    same equivalence holds for every task at an earlier index; every
    candidate is a task at an earlier index and carries that day count;
    the task yields a finding exactly when it has at least one candidate;
    and its candidates are the tasks at earlier indices that pass the
    criterion written with a parameter [lookbackDays], at the default.  A
    task whose declared-dependency set is not empty yields no finding.
    Every finding of the inferrer arises this way, so it has a candidate,
    and its task has a planned start and no declared dependency.  A task
    starting on Jan 10, with a task ending on Jan 6 and one ending on
    Jan 3, is reported with the first as only candidate, 4 days before,
    whether the rows are given in chronological order or the latest
    first. *)
Theorem C4_missing_dependency_candidates :
  (forall tasks,
      array_sort compare_start tasks ≡ₚ tasks /\
      (forall i j a b s,
          (j < i)%nat ->
          array_sort compare_start tasks !! j = Some a ->
          array_sort compare_start tasks !! i = Some b ->
          planned_start_date b = Some s ->
          exists sa, planned_start_date a = Some sa /\ sa <= s) /\
      (forall start,
          filter (fun t => planned_start_date t = start)
                 (array_sort compare_start tasks)
          = filter (fun t => planned_start_date t = start) tasks))
  /\ (forall tasks i cur s,
      array_sort compare_start tasks !! i = Some cur ->
      planned_start_date cur = Some s ->
      dependency_ids cur = [] ->
      (forall prev sp,
          prev ∈ tasks -> planned_start_date prev = Some sp -> sp < s ->
          (exists j, (j < i)%nat /\
                     array_sort compare_start tasks !! j = Some prev) /\
          ((exists c, c ∈ find_previous (array_sort compare_start tasks) i cur s /\
                      candidate_task c = prev)
           <-> (exists e, planned_end_date prev = Some e /\
                          (0 <= ceil_days (s - e) <= Spec.default_lookbackDays) /\
                          task_id prev ∉ dependency_ids cur))) /\
      (forall prev,
          planned_start_date prev = None \/
          (exists sp, planned_start_date prev = Some sp /\ s < sp) ->
          ~ exists c, c ∈ find_previous (array_sort compare_start tasks) i cur s /\
                      candidate_task c = prev) /\
      (forall j prev,
          (j < i)%nat -> array_sort compare_start tasks !! j = Some prev ->
          (exists c, c ∈ find_previous (array_sort compare_start tasks) i cur s /\
                     candidate_task c = prev)
          <-> (exists e, planned_end_date prev = Some e /\
                         (0 <= ceil_days (s - e) <= Spec.default_lookbackDays) /\
                         task_id prev ∉ dependency_ids cur)) /\
      (forall c,
          c ∈ find_previous (array_sort compare_start tasks) i cur s ->
          exists j e,
            (j < i)%nat /\
            array_sort compare_start tasks !! j = Some (candidate_task c) /\
            candidate_task c ∈ tasks /\
            planned_end_date (candidate_task c) = Some e /\
            daysBetween c = ceil_days (s - e)) /\
      check_task (array_sort compare_start tasks) i =
        match find_previous (array_sort compare_start tasks) i cur s with
        | [] => []
        | found => [ {| issue_task := cur; potentialDependencies := found |} ]
        end /\
      find_previous (array_sort compare_start tasks) i cur s =
        map (Spec.as_candidate s)
            (filter (fun p => Spec.is_candidate Spec.default_lookbackDays cur s p)
                    (take i (array_sort compare_start tasks))))
  /\ (forall tasks i cur,
        array_sort compare_start tasks !! i = Some cur ->
        dependency_ids cur <> [] ->
        check_task (array_sort compare_start tasks) i = [])
  /\ (forall tasks f,
        f ∈ detectMissingDependencies tasks <->
        exists i, f ∈ check_task (array_sort compare_start tasks) i)
  /\ (forall tasks f,
        f ∈ detectMissingDependencies tasks ->
        potentialDependencies f <> [] /\
        dependency_ids (issue_task f) = [] /\
        is_Some (planned_start_date (issue_task f)) /\
        issue_task f ∈ tasks)
  /\ detectMissingDependencies window_tasks = [window_finding]
  /\ detectMissingDependencies unordered_window_tasks = [window_finding]
  /\ Spec.default_lookbackDays = 5.
Proof.
  assert (forall tasks i cur s j prev,
             (j < i)%nat -> array_sort compare_start tasks !! j = Some prev ->
             (exists c, c ∈ find_previous (array_sort compare_start tasks) i cur s /\
                        candidate_task c = prev)
             <-> (exists e, planned_end_date prev = Some e /\
                            (0 <= ceil_days (s - e) <= Spec.default_lookbackDays) /\
                            task_id prev ∉ dependency_ids cur)) as Hiff.
  { intros tasks i cur s j prev Hj Hprev. unfold Spec.default_lookbackDays.
    split.
    - intros (c & Hc & <-).
      apply elem_of_find_previous in Hc
        as (j' & prev' & e & _ & _ & He & Hd & Hn & ->).
      by exists e.
    - intros (e & He & Hd & Hn). eexists. split.
      + apply elem_of_find_previous. by exists j, prev, e.
      + done. }
  split_and!.
  - intros tasks. split_and!.
    + apply array_sort_perm.
    + apply array_sort_earlier_starts.
    + apply array_sort_keeps_ties.
  - intros tasks i cur s Hi Hs Hdeps. split_and!.
    + intros prev sp Hin Hsp Hlt.
      destruct (array_sort_strictly_earlier tasks i cur s prev sp)
        as (j & Hj & Hprev); try done.
      split; [by exists j|]. by apply (Hiff tasks i cur s j prev).
    + intros prev Hprev (c & Hc & <-).
      apply elem_of_find_previous in Hc
        as (j & prev & e & Hj & Hjprev & _ & _ & _ & ->). simpl in Hprev.
      destruct (array_sort_earlier_starts tasks i j prev cur s Hj Hjprev Hi Hs)
        as (sa & Hsa & Hle).
      destruct Hprev as [Hnone|(sp & Hsp & Hlt)]; [congruence|].
      rewrite Hsa in Hsp. injection Hsp as <-. lia.
    + intros j prev. apply Hiff.
    + intros c Hc.
      apply elem_of_find_previous in Hc
        as (j & prev & e & Hj & Hprev & He & _ & _ & ->).
      exists j, e. simpl. split_and!; try done.
      rewrite <- (array_sort_perm compare_start tasks).
      by apply list_elem_of_lookup_2 with j.
    + unfold check_task. rewrite Hi, Hs.
      apply hasDependencies_false in Hdeps. rewrite Hdeps.
      by destruct (find_previous _ _ _ _).
    + apply find_previous_filter.
  - intros tasks i cur Hi Hdeps. unfold check_task. rewrite Hi.
    destruct (planned_start_date cur) as [s|]; [|done].
    destruct (dependency_ids cur) as [|d ds] eqn:Hd; [done|].
    assert (hasDependencies cur = true) as ->.
    { apply dependency_ids_hasDependencies with d. rewrite Hd.
      apply list_elem_of_here. }
    by destruct (find_previous _ _ _ _).
  - intros tasks f. apply elem_of_scan_sorted.
  - intros tasks f (i & Hf)%elem_of_scan_sorted.
    apply check_task_spec in Hf as (cur & s & Hi & Hs & Hdeps & Hne & ->).
    simpl. split_and!; [done| |by rewrite Hs|].
    + by apply hasDependencies_false.
    + rewrite <- (array_sort_perm compare_start tasks).
      by apply list_elem_of_lookup_2 with i.
  - vm_compute. reflexivity.
  - vm_compute. reflexivity.
  - reflexivity.
Qed.

(** The subject is given first and sorted last: the task that ends on
    Jan 6 is found before it only because the list is sorted. *)
Lemma C4_missing_dependency_candidates_witness :
  (exists j, (j < 2)%nat /\
             array_sort compare_start unordered_window_tasks !! j
             = Some (candidate_task window_candidate)) /\
  ((exists c,
       c ∈ find_previous (array_sort compare_start unordered_window_tasks) 2
             (issue_task window_finding) (Jan 10) /\
       candidate_task c = candidate_task window_candidate)
   <-> (exists e,
          planned_end_date (candidate_task window_candidate) = Some e /\
          (0 <= ceil_days (Jan 10 - e) <= Spec.default_lookbackDays) /\
          task_id (candidate_task window_candidate)
            ∉ dependency_ids (issue_task window_finding))).
Proof.
  refine (proj1 (proj1 (proj2 C4_missing_dependency_candidates)
                   unordered_window_tasks 2%nat (issue_task window_finding)
                   (Jan 10) _ _ _)
            (candidate_task window_candidate) (Jan 2) _ _ _).
  - reflexivity.
  - reflexivity.
  - reflexivity.
  - apply list_elem_of_further, list_elem_of_here.
  - reflexivity.
  - reflexivity.
Defined.
